(** * Selector resolution and trace annotation (src/tools/cast.ts)

    A shallow embedding of the selector extractor, the signature resolver,
    the match ranker, the trace annotator and the report builder of the
    Foundry MCP server, together with the properties its specification
    states about them.

    JavaScript strings are sequences of UTF-16 code units; they are modelled
    as lists of code units (natural numbers [N]).  The external world (the
    shell commands run through [executeCommand], the file system) is a
    record of oracles, and every call to it is recorded in an effect log. *)

From Stdlib Require Import Strings.String Strings.Ascii.
From Stdlib Require Import List NArith Arith Lia Bool.
From Stdlib Require Import Sorting.Sorted Sorting.Permutation.
From Stdlib Require Import Numbers.DecimalString.
Import ListNotations.

(* ===================================================================== *)
(** * JavaScript strings and the string primitives the code uses          *)
(* ===================================================================== *)

Module JS.

Abbreviation code_unit := N.
Abbreviation jsstring := (list code_unit).

(** A string literal of the source, as its code units. *)
Definition lit (s : string) : jsstring :=
  map N_of_ascii (list_ascii_of_string s).

(** [===] on strings. *)
Fixpoint str_eqb (a b : jsstring) : bool :=
  match a, b with
  | [], [] => true
  | x :: a', y :: b' => N.eqb x y && str_eqb a' b'
  | _, _ => false
  end.

(** The character class [[a-fA-F0-9]]. *)
Definition is_hex (c : code_unit) : bool :=
  ((97 <=? c) && (c <=? 102) || (65 <=? c) && (c <=? 70)
   || (48 <=? c) && (c <=? 57))%N.

(** WhiteSpace and LineTerminator code points, as [String.prototype.trim]
    strips them. *)
Definition is_space (c : code_unit) : bool :=
  ((9 <=? c) && (c <=? 13) || (c =? 32) || (c =? 160) || (c =? 5760)
   || (8192 <=? c) && (c <=? 8202) || (c =? 8232) || (c =? 8233)
   || (c =? 8239) || (c =? 8287) || (c =? 12288) || (c =? 65279))%N.

Fixpoint trimStart (s : jsstring) : jsstring :=
  match s with
  | c :: r => if is_space c then trimStart r else s
  | [] => []
  end.

Definition trimEnd (s : jsstring) : jsstring := rev (trimStart (rev s)).

(** [s.trim()] *)
Definition trim (s : jsstring) : jsstring := trimEnd (trimStart s).

(** [s.split(sep)] for a separator of one code unit; the result always has
    at least one element. *)
Fixpoint split (sep : code_unit) (s : jsstring) : list jsstring :=
  match s with
  | [] => [[]]
  | c :: r =>
      if N.eqb c sep then [] :: split sep r
      else match split sep r with
           | l :: ls => (c :: l) :: ls
           | [] => [[c]]
           end
  end.

(** [arr.join(sep)] *)
Fixpoint join (sep : jsstring) (l : list jsstring) : jsstring :=
  match l with
  | [] => []
  | [x] => x
  | x :: r => x ++ sep ++ join sep r
  end.

(** [s.startsWith(c)] and [s.includes(c)] for a one-unit argument. *)
Definition startsWith (c : code_unit) (s : jsstring) : bool :=
  match s with
  | d :: _ => N.eqb d c
  | [] => false
  end.

Definition includes (c : code_unit) (s : jsstring) : bool :=
  existsb (N.eqb c) s.

(** [s.substring(0, n)] *)
Definition substring0 (n : nat) (s : jsstring) : jsstring := firstn n s.

(** Truthiness of a string: the empty string is falsy. *)
Definition truthy (s : jsstring) : bool :=
  match s with
  | [] => false
  | _ :: _ => true
  end.

(** [arr.slice(0, n)] *)
Definition slice0 {A} (n : nat) (l : list A) : list A := firstn n l.

(** Number-to-string conversion of a non-negative integer (an array
    length), as a template literal performs it. *)
Definition of_nat (n : nat) : jsstring :=
  lit (NilZero.string_of_uint (Nat.to_uint n)).

(** Is [needle] a prefix of [s]? *)
Fixpoint prefixb (needle s : jsstring) : bool :=
  match needle, s with
  | [], _ => true
  | x :: n', y :: s' => N.eqb x y && prefixb n' s'
  | _ :: _, [] => false
  end.

(** [s.includes(needle)] for an arbitrary needle. *)
Fixpoint infixb (needle s : jsstring) : bool :=
  prefixb needle s ||
  match s with
  | [] => false
  | _ :: r => infixb needle r
  end.

(** ** Regular expressions with the global flag

    Both regular expressions of the code match a fixed, non-empty number of
    code units at a position, followed by a negative lookahead.  A pattern
    is given by the test at the head of the remaining input, which answers
    with the length of the match.  [exec_all] is the loop that
    [String.prototype.match] and [String.prototype.replace] run for a global
    regular expression: matches are searched from left to right, and after
    a match the search resumes behind it, so reported matches never
    overlap.  The index of each match is kept next to the matched text. *)

Definition pattern := jsstring -> option nat.

Fixpoint exec_all (pat : pattern) (skip pos : nat) (s : jsstring)
  : list (nat * jsstring) :=
  match s with
  | [] => []
  | _ :: r =>
      match skip with
      | S k => exec_all pat k (S pos) r
      | O =>
          match pat s with
          | Some n => (pos, firstn n s) :: exec_all pat (pred n) (S pos) r
          | None => exec_all pat 0 (S pos) r
          end
      end
  end.

(** [s.matchAll(re)]: every match with its index. *)
Definition matchAll (pat : pattern) (s : jsstring) : list (nat * jsstring) :=
  exec_all pat 0 0 s.

(** [s.match(re) || []]: the matched texts. *)
Definition match_ (pat : pattern) (s : jsstring) : list jsstring :=
  map snd (matchAll pat s).

(** GetSubstitution for a regular expression without capture groups: in
    the replacement text [$$] stands for a dollar sign, [$&] for the match,
    [$`] for the text before the match and [$'] for the text behind it;
    every other use of [$] (a group number, a group name) is kept as it is
    since there is no group to refer to. *)
Fixpoint getSubstitution (matched before after templ : jsstring) : jsstring :=
  match templ with
  | [] => []
  | c :: t =>
      if N.eqb c 36 then
        match t with
        | d :: t' =>
            if N.eqb d 36 then 36%N :: getSubstitution matched before after t'
            else if N.eqb d 38 then matched ++ getSubstitution matched before after t'
            else if N.eqb d 96 then before ++ getSubstitution matched before after t'
            else if N.eqb d 39 then after ++ getSubstitution matched before after t'
            else c :: getSubstitution matched before after t
        | [] => [c]
        end
      else c :: getSubstitution matched before after t
  end.

(** The loop of [str.replace(re, templ)] for a global [re]; [str] is the
    whole subject, [s] what is left of it from index [pos] on. *)
Fixpoint replace_from (pat : pattern) (templ str : jsstring)
    (skip pos : nat) (s : jsstring) : jsstring :=
  match s with
  | [] => []
  | c :: r =>
      match skip with
      | S k => replace_from pat templ str k (S pos) r
      | O =>
          match pat s with
          | Some n =>
              getSubstitution (firstn n s) (firstn pos str) (skipn n s) templ
              ++ replace_from pat templ str (pred n) (S pos) r
          | None => c :: replace_from pat templ str 0 (S pos) r
          end
      end
  end.

Definition replace (pat : pattern) (templ str : jsstring) : jsstring :=
  replace_from pat templ str 0 0 str.

(** [new Set(l)] followed by spreading it into an array: each value once,
    in the order of its first insertion. *)
Definition set_add (s : list jsstring) (x : jsstring) : list jsstring :=
  if existsb (str_eqb x) s then s else s ++ [x].

Definition Set_of (l : list jsstring) : list jsstring :=
  fold_left set_add l [].

End JS.
Import JS.

(* ===================================================================== *)
(** * Selector extractor (cast.ts 577-579 and 775-777)                    *)
(* ===================================================================== *)

(** The lookahead [(?![a-fA-F0-9])] at the head of [s]. *)
Definition no_hex_ahead (s : jsstring) : bool :=
  match s with
  | c :: _ => negb (is_hex c)
  | [] => true
  end.

(** [/0x[a-fA-F0-9]{8}(?![a-fA-F0-9])/] tried at the head of [s]. *)
Definition selectorRegex : pattern := fun s =>
  match s with
  | c0 :: c1 :: r =>
      if N.eqb c0 48 && N.eqb c1 120
         && Nat.eqb (length (firstn 8 r)) 8 && forallb is_hex (firstn 8 r)
         && no_hex_ahead (skipn 8 r)
      then Some 10 else None
  | _ => None
  end.

(** [[...new Set(text.match(selectorRegex) || [])]] *)
Definition extract_selectors (text : jsstring) : list jsstring :=
  Set_of (match_ selectorRegex text).

(** [/^0x[a-fA-F0-9]{8}$/.test(selector)] (cast.ts 638) *)
Definition valid_selector (s : jsstring) : bool :=
  match s with
  | c0 :: c1 :: r =>
      N.eqb c0 48 && N.eqb c1 120 && Nat.eqb (length r) 8 && forallb is_hex r
  | _ => false
  end.

(** [new RegExp(selector + "(?![a-fA-F0-9])", "g")] tried at the head of
    [s] (cast.ts 609 and 862).  The selectors this is built from come out of
    the extractor: they consist of [0], [x] and hex digits, which a regular
    expression reads literally. *)
Definition selectorOccurrence (selector : jsstring) : pattern := fun s =>
  if prefixb selector s && no_hex_ahead (skipn (length selector) s)
  then Some (length selector) else None.

(* ===================================================================== *)
(** * The outside world and the effects of the tools                      *)
(* ===================================================================== *)

(** What [executeCommand] resolves to (utils/commands.ts). *)
Record CommandResult := { success : bool; message : jsstring }.

(** What a tool answers: the text of its single content item and the error
    flag (absent in the source when the tool succeeds). *)
Record ToolResult := { text : jsstring; isError : bool }.

(** The constants of the configuration module, which is not part of the
    sources at hand, and the answers of the operating system. *)
Record World := {
  castPath : jsstring;
  forgePath : jsstring;
  FOUNDRY_NOT_INSTALLED_ERROR : jsstring;
  (** [execAsync(command)]: standard output and standard error, or the
      message of the error it rejects with. *)
  execAsync : jsstring -> (jsstring * jsstring) + jsstring;
  (** [fs.access(path)] resolves? *)
  fs_access : jsstring -> bool;
  (** [fs.readFile(path, 'utf8')]: the content, or the message of the
      error it rejects with. *)
  fs_readFile : jsstring -> jsstring + jsstring;
  (** [resolveRpcUrl] (utils/rpc.ts), an opaque normaliser of the endpoint
      name; nothing below depends on what it answers. *)
  resolveRpcUrl_of : jsstring -> jsstring
}.

Inductive Effect :=
| EExec (command : jsstring)
| EAccess (path : jsstring)
| EReadFile (path : jsstring)
| EResolveRpc (rpcUrl : jsstring).

Inductive Outcome (A : Type) :=
| Returned (a : A)
| Rejected (error : jsstring).
Arguments Returned {A} a.
Arguments Rejected {A} error.

(** An asynchronous computation run to its end: how it settles, and the
    calls to the outside world it made, in order. *)
Definition Async (A : Type) : Type := (Outcome A * list Effect)%type.

Definition ret {A} (a : A) : Async A := (Returned a, []).

Definition bind {A B} (m : Async A) (k : A -> Async B) : Async B :=
  match m with
  | (Returned a, l) => let (r, l') := k a in (r, l ++ l')
  | (Rejected e, l) => (Rejected e, l)
  end.

Notation "x <- m ;; k" := (bind m (fun x => k))
  (at level 61, m at next level, right associativity).

(** [try { m } catch (error) { h(error.message) }] *)
Definition try_catch {A} (m : Async A) (h : jsstring -> Async A) : Async A :=
  match m with
  | (Returned a, l) => (Returned a, l)
  | (Rejected e, l) => let (r, l') := h e in (r, l ++ l')
  end.

(** [for (const x of xs) { s = await body(s, x) }] *)
Fixpoint for_of {A S} (xs : list A) (body : S -> A -> Async S) (s : S)
  : Async S :=
  match xs with
  | [] => ret s
  | x :: r => s' <- body s x ;; for_of r body s'
  end.

Definition effects {A} (m : Async A) : list Effect := snd m.
Definition outcome {A} (m : Async A) : Outcome A := fst m.

(** A JavaScript [Map] with string keys: entries in insertion order;
    setting a key that is present keeps its place. *)
Fixpoint map_set {V} (k : jsstring) (v : V) (m : list (jsstring * V))
  : list (jsstring * V) :=
  match m with
  | [] => [(k, v)]
  | (k', v') :: r =>
      if str_eqb k' k then (k', v) :: r else (k', v') :: map_set k v r
  end.

Fixpoint map_get {V} (k : jsstring) (m : list (jsstring * V)) : option V :=
  match m with
  | [] => None
  | (k', v') :: r => if str_eqb k' k then Some v' else map_get k r
  end.

Definition nl : jsstring := [10%N].
Definition quoted (s : jsstring) : jsstring := [34%N] ++ s ++ [34%N].

Section Tools.

Variable w : World.

(** utils/commands.ts *)
Definition command_result (command : jsstring) : CommandResult :=
  match execAsync w command with
  | inl (stdout, stderr) =>
      if truthy stderr && negb (truthy stdout)
      then {| success := false; message := stderr |}
      else {| success := true; message := stdout |}
  | inr errorMessage => {| success := false; message := errorMessage |}
  end.

Definition executeCommand (command : jsstring) : Async CommandResult :=
  (Returned (command_result command), [EExec command]).

Definition foundry_installed : bool :=
  match execAsync w (forgePath w ++ lit " --version") with
  | inl _ => true
  | inr _ => false
  end.

Definition checkFoundryInstalled : Async bool :=
  (Returned foundry_installed, [EExec (forgePath w ++ lit " --version")]).

Definition resolveRpcUrl (rpcUrl : jsstring) : Async jsstring :=
  (Returned (resolveRpcUrl_of w rpcUrl), [EResolveRpc rpcUrl]).

Definition access (path : jsstring) : Async bool :=
  (Returned (fs_access w path), [EAccess path]).

Definition readFile (path : jsstring) : Async jsstring :=
  (match fs_readFile w path with
   | inl content => Returned content
   | inr error => Rejected error
   end,
   [EReadFile path]).

(** [result.success && result.message.trim()
      ? result.message.trim().split('\n').map(s => s.trim()) : []] *)
Definition signatures_of (result : CommandResult) : list jsstring :=
  if success result && truthy (trim (message result))
  then map trim (split 10%N (trim (message result)))
  else [].

(** ** Match ranker for the inline annotation (cast.ts 603-607) *)

(** [signatures.sort((a, b) => a.length - b.length)]: a stable sort by
    length. *)
Fixpoint insert_by_length (x : jsstring) (l : list jsstring) : list jsstring :=
  match l with
  | [] => [x]
  | y :: r =>
      if length x <=? length y then x :: l else y :: insert_by_length x r
  end.

Fixpoint sort_by_length (l : list jsstring) : list jsstring :=
  match l with
  | [] => []
  | x :: r => insert_by_length x (sort_by_length r)
  end.

Definition signaturesDisplay (signatures : list jsstring) : jsstring :=
  join (lit " or ") (slice0 3 (sort_by_length signatures)).

(** ** Trace annotator (cast.ts 608-611 and 861-864) *)

Definition annotate (selector annotation processedOutput : jsstring)
  : jsstring :=
  replace (selectorOccurrence selector)
          (selector ++ lit " [" ++ annotation ++ lit "]")
          processedOutput.

(** One turn of [selectorMap.forEach] in [processFunctionSelectors]. *)
Definition annotate_likely (processedOutput : jsstring)
    (entry : jsstring * list jsstring) : jsstring :=
  let (selector, signatures) := entry in
  if 0 <? length signatures
  then annotate selector (lit "Likely: " ++ signaturesDisplay signatures)
                processedOutput
  else processedOutput.

(** The body of the loop of lines 589-597. *)
Definition remote_lookup (rpcUrl : jsstring)
    (selectorMap : list (jsstring * list jsstring)) (selector : jsstring)
  : Async (list (jsstring * list jsstring)) :=
  result <- executeCommand
              (castPath w ++ lit " 4byte " ++ selector
               ++ lit " --rpc-url " ++ quoted rpcUrl) ;;
  if success result && truthy (trim (message result))
  then ret (map_set selector
              (map trim (split 10%N (trim (message result))))
              selectorMap)
  else ret selectorMap.

(** cast.ts 576-616 *)
Definition processFunctionSelectors (traceOutput rpcUrl : jsstring)
  : Async jsstring :=
  let selectors := extract_selectors traceOutput in
  if length selectors =? 0 then ret traceOutput
  else
    selectorMap <- for_of selectors (remote_lookup rpcUrl) [] ;;
    ret (fold_left annotate_likely selectorMap traceOutput).

(** ** cast_4byte_from_file (cast.ts 619-728) *)

(** The lines of the signature file that survive lines 664-666. *)
Definition file_signatures (fileContent : jsstring) : list jsstring :=
  filter (fun line => truthy line && negb (startsWith 35%N line))
         (map trim (split 10%N fileContent)).

(** What one turn of the loop of lines 678-695 does to
    [matchingSignatures] once the selector of [signature] is computed. *)
Definition match_signature (selector : jsstring) (fuzzyMatch : bool)
    (matchingSignatures : list jsstring) (signature : jsstring)
    (sigResult : CommandResult) : list jsstring :=
  if success sigResult && str_eqb (trim (message sigResult)) selector
  then matchingSignatures ++ [signature]
  else if fuzzyMatch && success sigResult then
    let resultSelector := trim (message sigResult) in
    if str_eqb (substring0 6 resultSelector) (substring0 6 selector)
    then matchingSignatures
           ++ [signature ++ lit " (partial match: " ++ resultSelector ++ lit ")"]
    else matchingSignatures
  else matchingSignatures.

Definition sigCommand (signature : jsstring) : jsstring :=
  castPath w ++ lit " sig " ++ quoted signature.

(** The body of the loop of lines 678-695. *)
Definition match_file_line (selector : jsstring) (fuzzyMatch : bool)
    (matchingSignatures : list jsstring) (signature : jsstring)
  : Async (list jsstring) :=
  if negb (includes 40%N signature) then ret matchingSignatures
  else
    sigResult <- executeCommand (sigCommand signature) ;;
    ret (match_signature selector fuzzyMatch matchingSignatures signature
           sigResult).

(** Lines 697-713. *)
Definition compile_results (selector : jsstring)
    (matchingSignatures onlineSignatures : list jsstring) : jsstring :=
  let output := lit "Results for selector " ++ selector ++ lit ":" ++ nl ++ nl in
  let output :=
    if 0 <? length matchingSignatures
    then output ++ lit "Matching signatures from local file:" ++ nl
                ++ join nl matchingSignatures ++ nl ++ nl
    else output ++ lit "No matching signatures found in local file." ++ nl ++ nl in
  if 0 <? length onlineSignatures
  then output ++ lit "Possible signatures from 4byte directory:" ++ nl
              ++ join nl onlineSignatures
  else output ++ lit "No signatures found in 4byte directory.".

Definition cast_4byte_from_file (selector filePath : jsstring)
    (fuzzyMatch : bool) : Async ToolResult :=
  installed <- checkFoundryInstalled ;;
  if negb installed
  then ret {| text := FOUNDRY_NOT_INSTALLED_ERROR w; isError := true |}
  else
    try_catch
      (if negb (valid_selector selector)
       then ret {| text := lit "Invalid selector format. Must be 0x followed by 8 hex characters.";
                   isError := true |}
       else
         onlineResult <- executeCommand (castPath w ++ lit " 4byte " ++ selector) ;;
         let onlineSignatures := signatures_of onlineResult in
         fileExists <- access filePath ;;
         if negb fileExists
         then ret {| text := lit "Signatures file not found: " ++ filePath;
                     isError := true |}
         else
           fileContent <- readFile filePath ;;
           let signatures := file_signatures fileContent in
           if length signatures =? 0
           then ret {| text := lit "No signatures found in the provided file.";
                       isError := true |}
           else
             matchingSignatures <-
               for_of signatures (match_file_line selector fuzzyMatch) [] ;;
             ret {| text := compile_results selector matchingSignatures
                              onlineSignatures;
                    isError := false |})
      (fun error =>
         ret {| text := lit "Error processing signatures: " ++ error;
                isError := true |}).

(** ** analyze_transaction_trace (cast.ts 731-874) *)

Record Entry := { online : list jsstring; local : list jsstring }.

(** The lines of the signature file that survive lines 805-807. *)
Definition trace_file_signatures (fileContent : jsstring) : list jsstring :=
  filter (fun line => truthy line && negb (startsWith 35%N line)
                      && includes 40%N line)
         (map trim (split 10%N fileContent)).

(** The body of the loop of lines 809-816. *)
Definition match_trace_line (selector : jsstring)
    (localSignatures : list jsstring) (signature : jsstring)
  : Async (list jsstring) :=
  sigResult <- executeCommand (sigCommand signature) ;;
  if success sigResult && str_eqb (trim (message sigResult)) selector
  then ret (localSignatures ++ [signature])
  else ret localSignatures.

(** Lines 800-818: the local matches of one selector. *)
Definition local_lookup (signatureFile : option jsstring) (selector : jsstring)
  : Async (list jsstring) :=
  match signatureFile with
  | Some path =>
      if truthy path then
        fileExists <- access path ;;
        if fileExists then
          fileContent <- readFile path ;;
          for_of (trace_file_signatures fileContent)
                 (match_trace_line selector) []
        else ret []
      else ret []
  | None => ret []
  end.

(** The body of the loop of lines 791-821. *)
Definition resolve_selector (signatureFile : option jsstring)
    (selectorMap : list (jsstring * Entry)) (selector : jsstring)
  : Async (list (jsstring * Entry)) :=
  onlineResult <- executeCommand (castPath w ++ lit " 4byte " ++ selector) ;;
  let onlineSignatures := signatures_of onlineResult in
  localSignatures <- local_lookup signatureFile selector ;;
  ret (map_set selector
         {| online := onlineSignatures; local := localSignatures |}
         selectorMap).

(** Lines 831-836, 838-846 and 848-851: the sections of one block of the
    report. *)
Definition local_section (signatures : option Entry) : jsstring :=
  match signatures with
  | Some e =>
      if 0 <? length (local e)
      then fold_left (fun output sig => output ++ lit "    - " ++ sig ++ nl)
             (local e)
             (lit "  Local matches (" ++ of_nat (length (local e)) ++ lit "):" ++ nl)
      else []
  | None => []
  end.

Definition online_section (signatures : option Entry) : jsstring :=
  match signatures with
  | Some e =>
      if 0 <? length (online e)
      then
        let output :=
          fold_left (fun output sig => output ++ lit "    - " ++ sig ++ nl)
            (slice0 5 (online e))
            (lit "  Online matches (" ++ of_nat (length (online e)) ++ lit "):" ++ nl) in
        if 5 <? length (online e)
        then output ++ lit "    - ... and " ++ of_nat (length (online e) - 5)
                    ++ lit " more" ++ nl
        else output
      else []
  | None => []
  end.

Definition no_matches_section (signatures : option Entry) : jsstring :=
  match signatures with
  | Some e =>
      if (length (local e) =? 0) && (length (online e) =? 0)
      then lit "  No matches found" ++ nl else []
  | None => lit "  No matches found" ++ nl
  end.

(** One turn of the loop of lines 827-854. *)
Definition report_block (selectorMap : list (jsstring * Entry))
    (output selector : jsstring) : jsstring :=
  let signatures := map_get selector selectorMap in
  output ++ lit "Selector: " ++ selector ++ nl
         ++ local_section signatures
         ++ online_section signatures
         ++ no_matches_section signatures
         ++ nl.

(** [signatures.local[0] || signatures.online[0] || null] *)
Definition head_truthy (l : list jsstring) : option jsstring :=
  match l with
  | x :: _ => if truthy x then Some x else None
  | [] => None
  end.

Definition bestMatch (signatures : Entry) : option jsstring :=
  match head_truthy (local signatures) with
  | Some b => Some b
  | None => head_truthy (online signatures)
  end.

(** One turn of [selectorMap.forEach] of lines 858-866. *)
Definition annotate_best (simplifiedTrace : jsstring)
    (entry : jsstring * Entry) : jsstring :=
  let (selector, signatures) := entry in
  match bestMatch signatures with
  | Some b => annotate selector b simplifiedTrace
  | None => simplifiedTrace
  end.

(** Lines 752-761. *)
Definition trace_command (txHash resolvedRpcUrl : jsstring)
    (knownAddresses : list jsstring) : jsstring :=
  let traceCommand := castPath w ++ lit " run " ++ txHash
                      ++ lit " --trace --verbosity 4" in
  let traceCommand :=
    if truthy resolvedRpcUrl
    then traceCommand ++ lit " --rpc-url " ++ quoted resolvedRpcUrl
    else traceCommand in
  fold_left (fun c addressInfo => c ++ lit " --label " ++ addressInfo)
    knownAddresses traceCommand.

(** Lines 823-868: the report and the simplified trace. *)
Definition build_report (txHash : jsstring) (selectors : list jsstring)
    (selectorMap : list (jsstring * Entry)) (trace : jsstring) : jsstring :=
  let output := lit "Analysis of transaction " ++ txHash ++ lit ":" ++ nl ++ nl in
  let output := output ++ lit "Found " ++ of_nat (length selectors)
                       ++ lit " unique function selectors in the trace."
                       ++ nl ++ nl in
  let output := fold_left (report_block selectorMap) selectors output in
  let simplifiedTrace := fold_left annotate_best selectorMap trace in
  output ++ lit "Simplified trace with function names:"
         ++ nl ++ nl ++ simplifiedTrace.

Definition analyze_transaction_trace (txHash rpcUrl : jsstring)
    (signatureFile : option jsstring) (knownAddresses : list jsstring)
  : Async ToolResult :=
  installed <- checkFoundryInstalled ;;
  if negb installed
  then ret {| text := FOUNDRY_NOT_INSTALLED_ERROR w; isError := true |}
  else
    resolvedRpcUrl <- resolveRpcUrl rpcUrl ;;
    let traceCommand := trace_command txHash resolvedRpcUrl knownAddresses in
    traceResult <- executeCommand traceCommand ;;
    if negb (success traceResult)
    then ret {| text := lit "Failed to trace transaction: " ++ message traceResult;
                isError := true |}
    else
      let selectors := extract_selectors (message traceResult) in
      if length selectors =? 0
      then ret {| text := lit "No function selectors found in the transaction trace.";
                  isError := false |}
      else
        selectorMap <- for_of selectors (resolve_selector signatureFile) [] ;;
        ret {| text := build_report txHash selectors selectorMap
                         (message traceResult);
               isError := false |}.

End Tools.

(* ===================================================================== *)
(** * Vocabulary of the statements                                        *)
(* ===================================================================== *)

(** Is there a hex digit at index [i] of [text]? *)
Definition hex_at (text : jsstring) (i : nat) : bool :=
  match nth_error text i with
  | Some c => is_hex c
  | None => false
  end.

(** [e] stands in [text] at index [pos]. *)
Definition occurs_at (e text : jsstring) (pos : nat) : Prop :=
  firstn (length e) (skipn pos text) = e.



(** Each value once, in the order of first appearance, skipping what has
    been [seen]. *)
Fixpoint first_appearances (seen l : list jsstring) : list jsstring :=
  match l with
  | [] => []
  | x :: r =>
      if existsb (str_eqb x) seen then first_appearances seen r
      else x :: first_appearances (seen ++ [x]) r
  end.

(** The verdict of lines 686-694 on one line of the signature file: what
    the line adds to the matching list. *)
Definition line_verdict (w : World) (selector : jsstring) (fuzzyMatch : bool)
    (signature : jsstring) : list jsstring :=
  match_signature selector fuzzyMatch [] signature
    (command_result w (sigCommand w signature)).

(** Following the specification: the candidate signature lines of a file
    are its lines, trimmed, that are not blank, do not start with [#] and
    hold an opening parenthesis. *)
Definition is_candidate (line : jsstring) : Prop :=
  line <> [] /\ startsWith 35%N line = false /\ In 40%N line.

Definition candidateb (line : jsstring) : bool :=
  negb (str_eqb line []) && negb (startsWith 35%N line) && includes 40%N line.

Definition candidate_lines (fileContent : jsstring) : list jsstring :=
  filter candidateb (map trim (split 10%N fileContent)).

(** The call that computes the selector of a signature. *)
Definition sig_call (w : World) (signature : jsstring) : Effect :=
  EExec (sigCommand w signature).

(** The upper-case form of a hex digit. *)
Definition upper_hex (c : code_unit) : code_unit :=
  if ((97 <=? c) && (c <=? 102))%N then (c - 32)%N else c.

(** One line of a listing of the report, and a listing. *)
Definition item (sig : jsstring) : jsstring := lit "    - " ++ sig ++ nl.

Definition listing (sigs : list jsstring) : jsstring := concat (map item sigs).

(** The order that the comparison function of line 604 induces. *)
Definition shorter_eq (a b : jsstring) : Prop := length a <= length b.

(** The signatures of [l] of a given length, in the order of [l]. *)
Definition of_length (n : nat) (l : list jsstring) : list jsstring :=
  filter (fun s => length s =? n) l.

(** Following the specification (4.3): for the inline annotation take at
    most three signatures, the local ones if there are any, the remote ones
    sorted by length otherwise. *)
Definition spec_inline_choice (localSigs remoteSigs : list jsstring)
  : list jsstring :=
  firstn 3 (match localSigs with
            | [] => sort_by_length remoteSigs
            | _ :: _ => localSigs
            end).

(** The remote lookup of [processFunctionSelectors] (line 590). *)
Definition lookup_call (w : World) (rpcUrl selector : jsstring) : Effect :=
  EExec (castPath w ++ lit " 4byte " ++ selector
         ++ lit " --rpc-url " ++ quoted rpcUrl).

(** What the loop of lines 791-821 stores for a selector when there is no
    local match: the answer of the remote directory alone. *)
Definition remote_only (w : World) (selectorMap : list (jsstring * Entry))
    (selector : jsstring) : list (jsstring * Entry) :=
  map_set selector
    {| online := signatures_of
                   (command_result w (castPath w ++ lit " 4byte " ++ selector));
       local := [] |}
    selectorMap.

(** A text without dollar sign: as a replacement text it stands for
    itself. *)
Definition plain (templ : jsstring) : Prop :=
  forallb (fun c => negb (N.eqb c 36)) templ = true.

(** Does [s] start with [0x]? *)
Definition starts_0x (s : jsstring) : bool := prefixb [48%N; 120%N] s.

(** ** Worlds to run the tools in *)

(** A world given by the standard output of the commands that succeed and
    by the content of the files that exist. *)
Definition world_of (commands files : list (jsstring * jsstring)) : World :=
  {| castPath := lit "cast";
     forgePath := lit "forge";
     FOUNDRY_NOT_INSTALLED_ERROR := lit "Foundry tools are not installed.";
     execAsync := fun command =>
       match map_get command commands with
       | Some stdout => inl (stdout, [])
       | None => inr (lit "Command failed")
       end;
     fs_access := fun path =>
       match map_get path files with
       | Some _ => true
       | None => false
       end;
     fs_readFile := fun path =>
       match map_get path files with
       | Some content => inl content
       | None => inr (lit "ENOENT: no such file or directory")
       end;
     resolveRpcUrl_of := fun rpcUrl => rpcUrl |}.

Definition forge_version : jsstring * jsstring :=
  (lit "forge --version", lit "forge 1.0.0").

(** A signature file with a comment, a blank line, a line without
    parenthesis and two signatures. *)
Definition sample_file : jsstring :=
  lit "# ERC20" ++ nl ++ lit "  transfer(address,uint256)  " ++ nl ++ nl
  ++ lit "owner" ++ nl ++ lit "approve(address,uint256)" ++ nl.

Definition sig_transfer : jsstring * jsstring :=
  (lit "cast sig " ++ quoted (lit "transfer(address,uint256)"),
   lit "0xa9059cbb" ++ nl).

Definition sig_approve : jsstring * jsstring :=
  (lit "cast sig " ++ quoted (lit "approve(address,uint256)"),
   lit "0x095ea7b3" ++ nl).

(** The toolchain is installed, [sigs.txt] exists. *)
Definition world_local : World :=
  world_of [forge_version; sig_transfer; sig_approve]
           [(lit "sigs.txt", sample_file)].

(** The command that [analyze_transaction_trace] runs for transaction
    [0xdead] on the local endpoint. *)
Definition sample_run : jsstring :=
  lit "cast run 0xdead --trace --verbosity 4 --rpc-url "
  ++ quoted (lit "http://localhost:8545").

(** The toolchain is installed and the trace holds no selector. *)
Definition world_plain : World :=
  world_of [forge_version; (sample_run, lit "CALL target::fallback()")] [].

(** The toolchain is installed, the trace holds one selector, which the
    directory resolves to [mint(uint256)] and the local file to
    [transfer(address,uint256)]. *)
Definition world_both : World :=
  world_of [forge_version;
            (sample_run, lit "CALL 0xa9059cbb");
            (lit "cast 4byte 0xa9059cbb", lit "mint(uint256)" ++ nl);
            (lit "cast 4byte 0xa9059cbb --rpc-url " ++ quoted (lit "http://localhost:8545"),
             lit "mint(uint256)" ++ nl);
            sig_transfer; sig_approve]
           [(lit "sigs.txt", sample_file)].

(** The toolchain is installed, the trace holds one selector, which the
    directory resolves to the signature of a function named [$$]. *)
Definition world_dollar : World :=
  world_of [forge_version;
            (sample_run, lit "CALL 0xabcdabcd");
            (lit "cast 4byte 0xabcdabcd", lit "$$(uint256)" ++ nl);
            (lit "cast 4byte 0xabcdabcd --rpc-url " ++ quoted (lit "http://localhost:8545"),
             lit "$$(uint256)" ++ nl)]
           [].

#[global] Arguments lit : simpl never.
#[global] Arguments trim : simpl never.
#[global] Arguments of_nat : simpl never.
#[global] Arguments extract_selectors : simpl never.
#[global] Arguments annotate : simpl never.
#[global] Arguments candidate_lines : simpl never.
#[global] Arguments file_signatures : simpl never.
#[global] Arguments trace_file_signatures : simpl never.
#[global] Arguments signatures_of : simpl never.
#[global] Arguments valid_selector : simpl never.

(* ===================================================================== *)
(** * The callers and the helpers of the engine                           *)
(* ===================================================================== *)

(** ** resolveRpcUrl (utils/rpc.ts 5-29) *)

(** What [resolveRpcUrl] takes from its surroundings: the default endpoint
    of the configuration module, the path of the configuration file of
    Foundry ([path.join(homeDir, ".foundry", "config.toml")]) and, for an
    endpoint name that holds characters with a meaning of their own in a
    regular expression, the outcome of building and running the expression
    of line 17 on the content of that file: the text of its group, if it
    is built and matches.  A name that makes no regular expression raises
    an error, which the function catches to go on as without a match. *)
Record RpcConfig := {
  DEFAULT_RPC_URL : jsstring;
  configPath : jsstring;
  RegExp_exec : jsstring -> jsstring -> option jsstring
}.

(** The characters that a regular expression reads as themselves wherever
    they stand: letters, digits, [_] and [-]. *)
Definition is_word (c : code_unit) : bool :=
  ((97 <=? c) && (c <=? 122) || (65 <=? c) && (c <=? 90)
   || (48 <=? c) && (c <=? 57) || (c =? 95) || (c =? 45))%N.

(** The character class of line 17: the double and the single quote. *)
Definition is_quote (c : code_unit) : bool := (N.eqb c 34 || N.eqb c 39)%bool.

(** The longest run of characters other than quotes at the head of
    [s]. *)
Fixpoint until_quote (s : jsstring) : jsstring :=
  match s with
  | [] => []
  | c :: r => if is_quote c then [] else c :: until_quote r
  end.

(** The end of the expression of line 17, tried at the head of [s] for a
    [name] that is read literally: the name, white space, [=], white space,
    a quote, the group of one or more characters other than quotes, and a
    quote; the result is the text of the group.  Every part has one way to
    match at most: white space is followed by a character that is none, and
    the run of the group by a quote. *)
Definition endpoint_at (name s : jsstring) : option jsstring :=
  if prefixb name s then
    match trimStart (skipn (length name) s) with
    | c :: s2 =>
        if N.eqb c 61 then
          match trimStart s2 with
          | q :: s3 =>
              if is_quote q then
                let v := until_quote s3 in
                if truthy v && (length v <? length s3) then Some v else None
              else None
          | [] => None
          end
        else None
    | [] => None
    end
  else None.

(** The lazy run of any characters and the end of the expression: the
    first place of [s] from which the end matches. *)
Fixpoint endpoint_from (name s : jsstring) : option jsstring :=
  match endpoint_at name s with
  | Some v => Some v
  | None =>
      match s with
      | [] => None
      | _ :: r => endpoint_from name r
      end
  end.

(** [new RegExp(...).exec(configContent)] of line 17 for a [name] that is
    read literally: the first place where the header [[rpc_endpoints]]
    stands and the rest of the expression matches behind it. *)
Fixpoint rpcMatch (name configContent : jsstring) : option jsstring :=
  match configContent with
  | [] => None
  | _ :: r =>
      if prefixb (lit "[rpc_endpoints]") configContent then
        match endpoint_from name (skipn 15 configContent) with
        | Some v => Some v
        | None => rpcMatch name r
        end
      else rpcMatch name r
  end.

Definition rpc_endpoint (cfg : RpcConfig) (name configContent : jsstring)
  : option jsstring :=
  if forallb is_word name then rpcMatch name configContent
  else RegExp_exec cfg name configContent.

(** The configuration file holds, somewhere behind the header
    [[rpc_endpoints]], the text [name], white space, [=], white space and
    the value [v] between quotes, [v] being not empty and free of
    quotes. *)
Definition holds_endpoint (name v configContent : jsstring) : Prop :=
  exists pre mid ws1 ws2 q1 q2 post,
    configContent
    = pre ++ lit "[rpc_endpoints]" ++ mid
      ++ name ++ ws1 ++ [61%N] ++ ws2 ++ [q1] ++ v ++ [q2] ++ post
    /\ forallb is_space ws1 = true /\ forallb is_space ws2 = true
    /\ is_quote q1 = true /\ is_quote q2 = true
    /\ v <> [] /\ forallb (fun c => negb (is_quote c)) v = true.

Definition resolveRpcUrl_src (cfg : RpcConfig) (w : World)
    (rpcUrl : option jsstring) : Async jsstring :=
  match rpcUrl with
  | None => ret (DEFAULT_RPC_URL cfg)
  | Some url =>
      if negb (truthy url) then ret (DEFAULT_RPC_URL cfg)
      else
        found <-
          (if negb (prefixb (lit "http") url) then
             try_catch
               (configExists <- access w (configPath cfg) ;;
                if configExists then
                  configContent <- readFile w (configPath cfg) ;;
                  match rpc_endpoint cfg url configContent with
                  | Some endpoint =>
                      if truthy endpoint then ret (Some endpoint) else ret None
                  | None => ret None
                  end
                else ret None)
               (fun _ => ret None)
           else ret None) ;;
        match found with
        | Some endpoint => ret endpoint
        | None => ret url
        end
  end.

(** ** cast_call (cast.ts 10-72) *)

(** [if (o) command += name + o] for an optional string [o]. *)
Definition option_flag (name : jsstring) (o : option jsstring) : jsstring :=
  match o with
  | Some v => if truthy v then name ++ v else []
  | None => []
  end.

(** Lines 54-59: the output of a call that succeeded, line by line. *)
Definition formatOutput (formattedOutput : jsstring) : jsstring :=
  if includes 10%N formattedOutput
     && negb (infixb (lit "Error") formattedOutput)
  then join nl (filter (fun line => 0 <? length line)
                  (map trim (split 10%N formattedOutput)))
  else formattedOutput.

(** [functionSignature.split('(')[0]] *)
Definition functionName (functionSignature : jsstring) : jsstring :=
  hd [] (split 40%N functionSignature).

Definition cast_call (cfg : RpcConfig) (w : World)
    (contractAddress functionSignature : jsstring) (args : list jsstring)
    (rpcUrl blockNumber from : option jsstring) : Async ToolResult :=
  installed <- checkFoundryInstalled w ;;
  if negb installed
  then ret {| text := FOUNDRY_NOT_INSTALLED_ERROR w; isError := true |}
  else
    resolvedRpcUrl <- resolveRpcUrl_src cfg w rpcUrl ;;
    let command := castPath w ++ lit " call " ++ contractAddress ++ lit " "
                   ++ quoted functionSignature in
    let command :=
      if 0 <? length args then command ++ lit " " ++ join (lit " ") args
      else command in
    let command :=
      if truthy resolvedRpcUrl
      then command ++ lit " --rpc-url " ++ quoted resolvedRpcUrl
      else command in
    let command := command ++ option_flag (lit " --block ") blockNumber in
    let command := command ++ option_flag (lit " --from ") from in
    result <- executeCommand w command ;;
    let formattedOutput :=
      if success result then formatOutput (message result)
      else message result in
    ret {| text :=
             if success result
             then lit "Call to " ++ contractAddress ++ lit "."
                  ++ functionName functionSignature ++ lit " result:" ++ nl
                  ++ formattedOutput
             else lit "Call failed: " ++ message result;
           isError := negb (success result) |}.

(** ** cast_trace (cast.ts 504-573) *)

(** A JavaScript number as far as [cast_trace] looks at its verbosity:
    whether it lies between 0 and 5, and how it prints. *)
Record Verbosity := { from_0_to_5 : bool; printed : jsstring }.

(** Lines 524-544. *)
Definition cast_trace_command (w : World) (txHash resolvedRpcUrl : jsstring)
    (verbosity : Verbosity) (labels : list jsstring) (json : bool)
  : jsstring :=
  let command := castPath w ++ lit " run " ++ txHash ++ lit " --trace" in
  let command :=
    if truthy resolvedRpcUrl
    then command ++ lit " --rpc-url " ++ quoted resolvedRpcUrl
    else command in
  let command :=
    if from_0_to_5 verbosity
    then command ++ lit " --verbosity " ++ printed verbosity
    else command in
  let command :=
    fold_left (fun c label => c ++ lit " --label " ++ label) labels command in
  if json then command ++ lit " --json" else command.

Definition cast_trace (cfg : RpcConfig) (w : World) (txHash rpcUrl : jsstring)
    (verbosity : Verbosity) (labels : list jsstring)
    (matchSignatures json : bool) : Async ToolResult :=
  installed <- checkFoundryInstalled w ;;
  if negb installed
  then ret {| text := FOUNDRY_NOT_INSTALLED_ERROR w; isError := true |}
  else
    resolvedRpcUrl <- resolveRpcUrl_src cfg w (Some rpcUrl) ;;
    result <- executeCommand w
                (cast_trace_command w txHash resolvedRpcUrl verbosity labels
                   json) ;;
    if negb (success result)
    then ret {| text := lit "Failed to trace transaction: " ++ message result;
                isError := true |}
    else
      output <- (if matchSignatures && success result
                 then processFunctionSelectors w (message result)
                        resolvedRpcUrl
                 else ret (message result)) ;;
      ret {| text := lit "Transaction trace for " ++ txHash ++ lit ":"
                     ++ nl ++ nl ++ output;
             isError := false |}.

(** ** Vocabulary of the further statements *)

(** Does the selector computed for [signature] equal [selector]
    (lines 686 and 813)? *)
Definition exact_match (w : World) (selector signature : jsstring) : bool :=
  success (command_result w (sigCommand w signature))
  && str_eqb (trim (message (command_result w (sigCommand w signature))))
       selector.

(** What the remote directory answers for [selector] in
    [processFunctionSelectors]. *)
Definition remote_answer (w : World) (rpcUrl selector : jsstring)
  : list jsstring :=
  signatures_of
    (command_result w
       (castPath w ++ lit " 4byte " ++ selector
        ++ lit " --rpc-url " ++ quoted rpcUrl)).

Definition answered (w : World) (rpcUrl selector : jsstring) : bool :=
  0 <? length (remote_answer w rpcUrl selector).

(** The number of places where the annotator finds [selector] in [text]. *)
Definition occurrences (selector text : jsstring) : nat :=
  length (matchAll (selectorOccurrence selector) text).

(** A string that [trim] leaves as it is begins with no white space. *)
Definition no_space_head (s : jsstring) : Prop :=
  match s with
  | c :: _ => is_space c = false
  | [] => True
  end.

Definition sample_config : RpcConfig :=
  {| DEFAULT_RPC_URL := lit "http://localhost:8545";
     configPath := lit "/home/user/.foundry/config.toml";
     RegExp_exec := fun _ _ => None |}.

(** A configuration file that names one endpoint, [mainnet]. *)
Definition sample_config_file : jsstring :=
  lit "[rpc_endpoints]" ++ nl
  ++ lit "mainnet = " ++ quoted (lit "https://eth.example.org") ++ nl.

(** The configuration file is there and can be read. *)
Definition world_config : World :=
  world_of [forge_version]
           [(lit "/home/user/.foundry/config.toml", sample_config_file)].

(** The toolchain is installed; the signature file and the configuration
    file are there, but cannot be read. *)
Definition world_unreadable : World :=
  {| castPath := lit "cast";
     forgePath := lit "forge";
     FOUNDRY_NOT_INSTALLED_ERROR := lit "Foundry tools are not installed.";
     execAsync := fun command =>
       match map_get command
               [forge_version; (sample_run, lit "CALL 0xa9059cbb")] with
       | Some stdout => inl (stdout, [])
       | None => inr (lit "Command failed")
       end;
     fs_access := fun _ => true;
     fs_readFile := fun _ => inr (lit "EISDIR: illegal operation on a directory");
     resolveRpcUrl_of := fun rpcUrl => rpcUrl |}.

(** The toolchain is not installed. *)
Definition world_bare : World := world_of [] [].

(** The command that [cast_trace] runs for transaction [0xdead] on the
    local endpoint at verbosity 3. *)
Definition verbosity_3 : Verbosity :=
  {| from_0_to_5 := true; printed := lit "3" |}.

Definition sample_trace_run : jsstring :=
  lit "cast run 0xdead --trace --rpc-url "
  ++ quoted (lit "http://localhost:8545") ++ lit " --verbosity 3".

(** The toolchain is installed, the trace holds one selector twice, which
    the directory resolves to two signatures. *)
Definition world_trace : World :=
  world_of [forge_version;
            (sample_trace_run, lit "CALL 0xa9059cbb, CALL 0xa9059cbb");
            (lit "cast 4byte 0xa9059cbb --rpc-url "
             ++ quoted (lit "http://localhost:8545"),
             lit "transfer(address,uint256)" ++ nl ++ lit "mint(uint256)" ++ nl)]
           [].

(** ** Selectors as the text shows them *)







(** ** The report *)

(** The block of the report for one entry of the table (lines 829-853). *)
Definition report_entry (kv : jsstring * Entry) : jsstring :=
  lit "Selector: " ++ fst kv ++ nl
  ++ local_section (Some (snd kv)) ++ online_section (Some (snd kv))
  ++ no_matches_section (Some (snd kv)) ++ nl.

(** The toolchain is installed, the trace holds one selector, which the
    directory resolves to seven signatures. *)
Definition world_seven : World :=
  world_of [forge_version;
            (sample_run, lit "CALL 0xa9059cbb");
            (lit "cast 4byte 0xa9059cbb",
             lit "a()" ++ nl ++ lit "b()" ++ nl ++ lit "c()" ++ nl
             ++ lit "d()" ++ nl ++ lit "e()" ++ nl ++ lit "f()" ++ nl
             ++ lit "g()" ++ nl)]
           [].

#[global] Arguments formatOutput : simpl never.

(* ===================================================================== *)
(** * Strings                                                             *)
(* ===================================================================== *)

Lemma str_eqb_eq (a b : jsstring) : str_eqb a b = true <-> a = b.
Proof.
  revert b; induction a as [|x a IH]; intros [|y b]; simpl;
    try (split; [discriminate | congruence]); try tauto.
  rewrite andb_true_iff, N.eqb_eq, IH.
  split; [intros [E1 E2]; now rewrite E1, E2 |].
  intros H; injection H as E1 E2. now split.
Qed.

Lemma str_eqb_refl (a : jsstring) : str_eqb a a = true.
Proof. now apply str_eqb_eq. Qed.

Lemma str_eqb_neq (a b : jsstring) : str_eqb a b = false <-> a <> b.
Proof.
  rewrite <- str_eqb_eq. destruct (str_eqb a b); split; congruence.
Qed.

Lemma existsb_str_eqb (x : jsstring) (l : list jsstring) :
  existsb (str_eqb x) l = true <-> In x l.
Proof.
  rewrite existsb_exists. split.
  - intros (y & Hy & E). apply str_eqb_eq in E. now subst.
  - intros H. exists x. split; [assumption | apply str_eqb_refl].
Qed.

Lemma prefixb_firstn (needle s : jsstring) :
  prefixb needle s = true <-> firstn (length needle) s = needle.
Proof.
  revert s; induction needle as [|x n IH]; intros [|y s]; simpl;
    try (split; [discriminate | congruence]); try tauto.
  rewrite andb_true_iff, N.eqb_eq, IH.
  split; [intros [E1 E2]; now rewrite E1, E2 |].
  intros H; injection H as E1 E2. now split.
Qed.

(* ===================================================================== *)
(** * The matching loop                                                   *)
(* ===================================================================== *)

Section Exec.

Variable pat : pattern.

(** Every reported match is a match of the pattern at its index. *)
Lemma exec_all_In : forall s skip pos p e,
  In (p, e) (exec_all pat skip pos s) ->
  exists k n, p = pos + k /\ skip <= k /\
              pat (skipn k s) = Some n /\ e = firstn n (skipn k s).
Proof.
  induction s as [|c r IH]; intros skip pos p e H; simpl in H; [easy|].
  destruct skip as [|k'].
  - destruct (pat (c :: r)) as [n|] eqn:E.
    + destruct H as [H|H].
      * inversion H; subst. exists 0, n. rewrite Nat.add_0_r. auto.
      * apply IH in H. destruct H as (k & m & -> & _ & Hp & He).
        exists (S k), m. repeat split; simpl; auto; lia.
    + apply IH in H. destruct H as (k & m & -> & _ & Hp & He).
      exists (S k), m. repeat split; simpl; auto; lia.
  - apply IH in H. destruct H as (k & m & -> & Hk & Hp & He).
    exists (S k), m. repeat split; simpl; auto; lia.
Qed.



End Exec.

(* ===================================================================== *)
(** * Selector extractor                                                  *)
(* ===================================================================== *)

Lemma selectorRegex_Some (s : jsstring) (n : nat) :
  selectorRegex s = Some n ->
  n = 10 /\ valid_selector (firstn 10 s) = true
  /\ no_hex_ahead (skipn 10 s) = true.
Proof.
  unfold valid_selector.
  destruct s as [|c0 [|c1 r]]; simpl; try discriminate.
  destruct (_ && _) eqn:E; [|discriminate].
  intros H; inversion H; subst; clear H.
  repeat (apply andb_true_iff in E; destruct E as [E ?]).
  repeat split; auto.
  rewrite E, H2, H1; simpl. apply H0.
Qed.

Lemma valid_selector_length (e : jsstring) :
  valid_selector e = true -> length e = 10.
Proof.
  unfold valid_selector.
  destruct e as [|c0 [|c1 r]]; simpl; try discriminate.
  rewrite !andb_true_iff, Nat.eqb_eq. intros [[[_ _] H] _]. now rewrite H.
Qed.

Lemma no_hex_ahead_hex_at (text : jsstring) (i : nat) :
  no_hex_ahead (skipn i text) = negb (hex_at text i).
Proof.
  unfold hex_at. revert i; induction text as [|c r IH]; intros [|i]; simpl; auto.
Qed.

(** What a match of the selector pattern at index [pos] means. *)
Lemma matchAll_selector (text : jsstring) (pos : nat) (e : jsstring) :
  In (pos, e) (matchAll selectorRegex text) ->
  valid_selector e = true /\ occurs_at e text pos
  /\ hex_at text (pos + 10) = false.
Proof.
  intros H. apply exec_all_In in H.
  destruct H as (k & n & -> & _ & Hp & ->). simpl.
  apply selectorRegex_Some in Hp. destruct Hp as (-> & Hv & Hh).
  split; [assumption|]. split.
  - unfold occurs_at. rewrite (valid_selector_length _ Hv).
    reflexivity.
  - rewrite skipn_skipn, no_hex_ahead_hex_at in Hh.
    rewrite Nat.add_comm. now destruct (hex_at text (10 + k)).
Qed.

(** [Set_of] keeps the first appearance of each value. *)
Lemma fold_set_add (l acc : list jsstring) :
  fold_left set_add l acc = acc ++ first_appearances acc l.
Proof.
  revert acc; induction l as [|x l IH]; intros acc; simpl.
  - now rewrite app_nil_r.
  - rewrite IH. unfold set_add. destruct (existsb (str_eqb x) acc); [reflexivity|].
    now rewrite <- app_assoc.
Qed.

Lemma Set_of_first_appearances (l : list jsstring) :
  Set_of l = first_appearances [] l.
Proof. unfold Set_of. now rewrite fold_set_add. Qed.

Lemma first_appearances_In (l seen : list jsstring) (e : jsstring) :
  In e (first_appearances seen l) <-> In e l /\ ~ In e seen.
Proof.
  revert seen; induction l as [|x l IH]; intros seen; simpl; [tauto|].
  destruct (existsb (str_eqb x) seen) eqn:E.
  - apply existsb_str_eqb in E. rewrite IH.
    split; [tauto|]. intros [[->|H] N]; tauto.
  - assert (N : ~ In x seen) by (rewrite <- existsb_str_eqb, E; discriminate).
    simpl. rewrite IH, in_app_iff. simpl.
    split.
    + intros [->|[H1 H2]]; tauto.
    + intros [[->|H1] H2]; [tauto|].
      destruct (str_eqb x e) eqn:Ex.
      * apply str_eqb_eq in Ex. tauto.
      * apply str_eqb_neq in Ex. right. split; [assumption|]. intuition congruence.
Qed.

Lemma first_appearances_NoDup (l seen : list jsstring) :
  NoDup (first_appearances seen l).
Proof.
  revert seen; induction l as [|x l IH]; intros seen; simpl; [constructor|].
  destruct (existsb (str_eqb x) seen); [apply IH|].
  constructor; [|apply IH].
  rewrite first_appearances_In, in_app_iff. simpl. tauto.
Qed.

Lemma Set_of_In (l : list jsstring) (e : jsstring) : In e (Set_of l) <-> In e l.
Proof. rewrite Set_of_first_appearances, first_appearances_In. simpl. tauto. Qed.




(** C1: whatever the trace text, every extracted selector is [0x] followed
    by exactly eight hex digits, it is the text of a match of the pattern,
    and at every match the selector stands in the text at the index of the
    match with no hex digit right behind it. *)
Theorem C1_extracted_selectors_well_formed (text e : jsstring) :
  In e (extract_selectors text) ->
  valid_selector e = true
  /\ (exists pos, In (pos, e) (matchAll selectorRegex text))
  /\ (forall pos, In (pos, e) (matchAll selectorRegex text) ->
        occurs_at e text pos /\ hex_at text (pos + length e) = false).
Proof.
  intros H. unfold extract_selectors in H.
  apply (proj1 (Set_of_In _ _)) in H. unfold match_ in H.
  apply in_map_iff in H. destruct H as ([pos e'] & E & H). simpl in E. subst e'.
  pose proof (matchAll_selector _ _ _ H) as (Hv & _).
  split; [assumption|]. split; [now exists pos|].
  intros q Hq. apply matchAll_selector in Hq.
  rewrite (valid_selector_length _ Hv). tauto.
Qed.

Lemma C1_witness :
  In (lit "0xabcdabcd")
     (extract_selectors
        (lit "CALL 0xabcdabcd to 0x1111111111111111111111111111111111112222"))
  /\ valid_selector (lit "0xabcdabcd") = true.
Proof.
  split; [vm_compute; auto|].
  apply (C1_extracted_selectors_well_formed
           (lit "CALL 0xabcdabcd to 0x1111111111111111111111111111111111112222")
           (lit "0xabcdabcd")).
  vm_compute; auto.
Defined.

(** The scan misses no occurrence, but those that start inside the match
    before them. *)
Lemma exec_all_complete : forall s skip pos k,
  skip <= k -> selectorRegex (skipn k s) = Some 10 ->
  (exists e, In (pos + k, e) (exec_all selectorRegex skip pos s))
  \/ (exists p e, In (p, e) (exec_all selectorRegex skip pos s)
                  /\ p < pos + k < p + 10).
Proof.
  induction s as [|c r IH]; intros skip pos k Hk H.
  - rewrite skipn_nil in H. discriminate.
  - cbn [exec_all]. destruct skip as [|skip].
    + destruct k as [|k].
      * cbn [skipn] in H. rewrite H. left. eexists. left.
        now rewrite Nat.add_0_r.
      * cbn [skipn] in H.
        destruct (selectorRegex (c :: r)) as [n|] eqn:E.
        -- apply selectorRegex_Some in E. destruct E as (-> & _). cbn [pred].
           destruct (Nat.le_gt_cases 9 k) as [L|L].
           ++ destruct (IH 9 (S pos) k L H) as [(e & He)|(p & e & He & Hp)].
              ** left. exists e. right. now rewrite Nat.add_succ_r.
              ** right. exists p, e. split; [now right|lia].
           ++ right. eexists pos, _. split; [now left|lia].
        -- destruct (IH 0 (S pos) k (Nat.le_0_l k) H)
             as [(e & He)|(p & e & He & Hp)].
           ++ left. exists e. now rewrite Nat.add_succ_r.
           ++ right. exists p, e. split; [assumption|lia].
    + destruct k as [|k]; [lia|]. cbn [skipn] in H.
      destruct (IH skip (S pos) k (le_S_n _ _ Hk) H)
        as [(e & He)|(p & e & He & Hp)].
      * left. exists e. now rewrite Nat.add_succ_r.
      * right. exists p, e. split; [assumption|lia].
Qed.

(** An occurrence can start inside a match only on its last digit. *)
Lemma occurrences_overlap (u : jsstring) (d : nat) :
  selectorRegex u = Some 10 -> selectorRegex (skipn d u) = Some 10 ->
  0 < d < 10 -> d = 9.
Proof.
  intros Hu Hd Hr.
  assert (X : nth_error u (S d) = Some 120%N).
  { destruct (skipn d u) as [|c0 [|c1 t]] eqn:E; try discriminate.
    cbn [selectorRegex] in Hd.
    destruct (N.eqb c0 48 && N.eqb c1 120 && _ && _ && _) eqn:B;
      [|discriminate].
    rewrite !andb_true_iff in B. destruct B as [[[[_ B] _] _] _].
    apply N.eqb_eq in B. subst c1.
    rewrite <- (firstn_skipn d u), E.
    assert (L : length (firstn d u) = d).
    { apply firstn_length_le. apply (f_equal (@length _)) in E.
      rewrite length_skipn in E. simpl in E. lia. }
    rewrite nth_error_app2 by lia. rewrite L.
    replace (S d - d) with 1 by lia. reflexivity. }
  destruct u as [|c0 [|c1 r]]; try discriminate.
  cbn [selectorRegex] in Hu.
  destruct (N.eqb c0 48 && N.eqb c1 120 && _ && _ && _) eqn:B; [|discriminate].
  rewrite !andb_true_iff in B. destruct B as [[[_ Hl] Hh] _].
  destruct (Nat.eq_dec d 9) as [|N]; [assumption|exfalso].
  destruct d as [|d]; [lia|]. cbn [nth_error] in X.
  assert (Hin : In 120%N (firstn 8 r)).
  { apply nth_error_In with (n := d).
    rewrite nth_error_firstn. destruct (d <? 8) eqn:F; [assumption|].
    apply Nat.ltb_ge in F. lia. }
  rewrite forallb_forall in Hh. apply Hh in Hin. discriminate.
Qed.

(** Every occurrence of the selector pattern in a text is reported as a
    match, unless its first character is the last digit of a match. *)
Lemma matchAll_complete (text : jsstring) (q : nat) :
  selectorRegex (skipn q text) = Some 10 ->
  (exists e, In (q, e) (matchAll selectorRegex text))
  \/ (exists p e, In (p, e) (matchAll selectorRegex text) /\ q = p + 9).
Proof.
  intros H. unfold matchAll.
  destruct (exec_all_complete text 0 0 q (Nat.le_0_l q) H)
    as [He|(p & e & He & Hp)]; [now left|right].
  exists p, e. split; [assumption|].
  pose proof (exec_all_In _ _ _ _ _ _ He) as (k & n & -> & _ & Hk & _).
  cbn [Nat.add] in *.
  assert (Hn : n = 10) by (apply selectorRegex_Some in Hk; tauto). subst n.
  replace q with ((q - k) + k) in H by lia. rewrite <- skipn_skipn in H.
  pose proof (occurrences_overlap (skipn k text) (q - k) Hk H). lia.
Qed.

(** Matches do not overlap: where the last digit of a match is the [0] of
    a further [0x] and eight hex digits, that further text is not
    matched. *)
Example matches_do_not_overlap :
  matchAll selectorRegex (lit "0x12345670x12345678")
  = [(0, lit "0x12345670")].
Proof. vm_compute. reflexivity. Qed.

Example extract_scenario :
  extract_selectors
    (lit "CALL 0xabcdabcd to 0x1111111111111111111111111111111111112222 0xABCDabcd, 0xabcdabcd")
  = [lit "0xabcdabcd"; lit "0xABCDabcd"].
Proof. vm_compute. reflexivity. Qed.

(* ===================================================================== *)
(** * The order of extraction and the text                                *)
(* ===================================================================== *)











(* ===================================================================== *)
(** * Asynchronous computations                                           *)
(* ===================================================================== *)

Lemma bind_returned {A B} (a : A) (l : list Effect) (k : A -> Async B) :
  bind (Returned a, l) k = (outcome (k a), l ++ effects (k a)).
Proof. unfold bind, outcome, effects. now destruct (k a). Qed.

Lemma bind_ret {A B} (a : A) (k : A -> Async B) : bind (ret a) k = k a.
Proof. unfold ret. rewrite bind_returned. now destruct (k a). Qed.

Lemma outcome_bind {A B} (m : Async A) (k : A -> Async B) :
  outcome (bind m k) =
  match outcome m with
  | Returned a => outcome (k a)
  | Rejected e => Rejected e
  end.
Proof. destruct m as [[a|e] l]; simpl; [|reflexivity]. now destruct (k a). Qed.

Lemma effects_bind {A B} (m : Async A) (k : A -> Async B) :
  effects (bind m k) =
  effects m ++ match outcome m with
               | Returned a => effects (k a)
               | Rejected _ => []
               end.
Proof.
  destruct m as [[a|e] l]; simpl; [now destruct (k a)|now rewrite app_nil_r].
Qed.

(* ===================================================================== *)
(** * Signature resolver: the local file                                  *)
(* ===================================================================== *)

Lemma match_signature_acc (selector : jsstring) (fuzzyMatch : bool)
    (acc : list jsstring) (signature : jsstring) (r : CommandResult) :
  match_signature selector fuzzyMatch acc signature r =
  acc ++ match_signature selector fuzzyMatch [] signature r.
Proof.
  unfold match_signature. cbv zeta.
  destruct (success r && _); [reflexivity|].
  destruct (fuzzyMatch && _); [|now rewrite app_nil_r].
  destruct (str_eqb _ _); [reflexivity|now rewrite app_nil_r].
Qed.

(** The loop of lines 678-695: it computes the selector of exactly the
    lines that hold a parenthesis, and appends the verdict on each. *)
Lemma match_file_loop (w : World) (selector : jsstring) (fuzzyMatch : bool) :
  forall signatures acc,
    for_of signatures (match_file_line w selector fuzzyMatch) acc =
    (Returned (acc ++ flat_map (line_verdict w selector fuzzyMatch)
                        (filter (includes 40%N) signatures)),
     map (sig_call w) (filter (includes 40%N) signatures)).
Proof.
  induction signatures as [|x r IH]; intros acc; simpl.
  - unfold ret. now rewrite app_nil_r.
  - unfold match_file_line at 1. destruct (includes 40%N x); simpl.
    + rewrite IH, match_signature_acc, <- app_assoc. reflexivity.
    + rewrite IH. reflexivity.
Qed.

(** The loop of lines 809-816. *)
Lemma match_trace_loop (w : World) (selector : jsstring) :
  forall signatures acc,
    for_of signatures (match_trace_line w selector) acc =
    (Returned (acc ++ flat_map (line_verdict w selector false) signatures),
     map (sig_call w) signatures).
Proof.
  induction signatures as [|x r IH]; intros acc; simpl.
  - unfold ret. now rewrite app_nil_r.
  - unfold match_trace_line at 1, line_verdict at 1, match_signature.
    unfold executeCommand. simpl.
    destruct (success _ && str_eqb _ selector); simpl; rewrite IH.
    + now rewrite <- app_assoc.
    + reflexivity.
Qed.

Lemma partial_not_plain (signature computed : jsstring) :
  signature ++ lit " (partial match: " ++ computed ++ lit ")" <> signature.
Proof.
  intros H. apply (f_equal (@length _)) in H.
  rewrite !length_app in H. simpl in H. lia.
Qed.

(** C3: in [cast_4byte_from_file] the matching list is made of the verdicts
    on the candidate lines of the file, in order.  A line whose computed
    selector equals the target adds its signature; a line adds the entry
    marked as partial, which shows the computed selector, exactly when fuzzy
    matching is on, the line is no exact match, and the first six characters
    of the computed selector and of the target agree; any other line adds
    nothing. *)
Theorem C3_matching_policy (w : World) (selector : jsstring)
    (fuzzyMatch : bool) :
  (forall signatures,
     outcome (for_of signatures (match_file_line w selector fuzzyMatch) []) =
     Returned (flat_map (line_verdict w selector fuzzyMatch)
                 (filter (includes 40%N) signatures)))
  /\ forall signature,
       let r := command_result w (sigCommand w signature) in
       let computed := trim (message r) in
       let partial :=
         signature ++ lit " (partial match: " ++ computed ++ lit ")" in
       (success r = true /\ computed = selector ->
        line_verdict w selector fuzzyMatch signature = [signature])
       /\ (line_verdict w selector fuzzyMatch signature = [partial] <->
           fuzzyMatch = true /\ success r = true /\ computed <> selector
           /\ firstn 6 computed = firstn 6 selector)
       /\ (line_verdict w selector fuzzyMatch signature = []
           \/ line_verdict w selector fuzzyMatch signature = [signature]
           \/ line_verdict w selector fuzzyMatch signature = [partial]).
Proof.
  split.
  - intros signatures. now rewrite match_file_loop.
  - intros signature r computed partial.
    unfold line_verdict, match_signature, substring0. fold r. fold computed.
    cbn [app]. fold partial.
    destruct (success r) eqn:Es; cbn [andb];
      destruct (str_eqb computed selector) eqn:Ec; cbn [andb];
      rewrite ?andb_true_r, ?andb_false_r.
    + apply str_eqb_eq in Ec. split; [reflexivity|]. split; [|auto].
      split; [|tauto]. intros H. injection H as H. symmetry in H.
      now apply partial_not_plain in H.
    + apply str_eqb_neq in Ec. split; [tauto|].
      destruct fuzzyMatch.
      * destruct (str_eqb (firstn 6 computed) (firstn 6 selector)) eqn:E6.
        -- apply str_eqb_eq in E6. split; [tauto|auto].
        -- apply str_eqb_neq in E6. split; [|auto].
           split; [discriminate|tauto].
      * split; [|auto]. split; [discriminate|]. intros [H _]. discriminate.
    + split; [intros [H _]; discriminate|]. split; [|auto].
      split; [discriminate|]. intros (_ & H & _). discriminate.
    + split; [intros [H _]; discriminate|]. split; [|auto].
      split; [discriminate|]. intros (_ & H & _). discriminate.
Qed.

Lemma is_hex_range (c : code_unit) :
  is_hex c = true <->
  (97 <= c <= 102 \/ 65 <= c <= 70 \/ 48 <= c <= 57)%N.
Proof.
  unfold is_hex. rewrite !orb_true_iff, !andb_true_iff, !N.leb_le. tauto.
Qed.

Lemma is_hex_false (c : code_unit) :
  is_hex c = false <->
  ~ (97 <= c <= 102 \/ 65 <= c <= 70 \/ 48 <= c <= 57)%N.
Proof.
  rewrite <- is_hex_range. destruct (is_hex c); split; congruence.
Qed.

Lemma upper_hex_cases (c : code_unit) :
  ((97 <= c <= 102)%N /\ upper_hex c = (c - 32)%N)
  \/ (~ (97 <= c <= 102)%N /\ upper_hex c = c).
Proof.
  unfold upper_hex.
  destruct (N.leb_spec 97 c), (N.leb_spec c 102); cbn [andb];
    [left|right|right|right]; split; auto; lia.
Qed.

Lemma upper_hex_is_hex (c : code_unit) : is_hex (upper_hex c) = is_hex c.
Proof.
  destruct (upper_hex_cases c) as [[R ->]|[R ->]]; [|reflexivity].
  transitivity true; [|symmetry]; apply is_hex_range; lia.
Qed.

Lemma upper_hex_eqb (c d : code_unit) :
  (d < 65 \/ 102 < d)%N -> N.eqb (upper_hex c) d = N.eqb c d.
Proof.
  intros H.
  destruct (upper_hex_cases c) as [[R ->]|[R ->]]; [|reflexivity].
  transitivity false; [|symmetry]; apply N.eqb_neq; lia.
Qed.

(** The validation of line 638 does not tell the case of hex digits. *)
Lemma valid_selector_upper (s : jsstring) :
  valid_selector (map upper_hex s) = valid_selector s.
Proof.
  unfold valid_selector.
  destruct s as [|c0 [|c1 r]]; simpl; try reflexivity.
  rewrite !upper_hex_eqb by lia. rewrite length_map.
  f_equal. induction r as [|c r IH]; cbn [map forallb]; [reflexivity|].
  now rewrite upper_hex_is_hex, IH.
Qed.

(** C10: the test for an exact match is equality of strings, character by
    character: whenever the trimmed output of the toolchain differs from the
    target selector, be it only in the case of a hex digit, the signature is
    not added as an exact match; yet the validation of the target selector
    accepts a selector in either case. *)
Theorem C10_exact_match_is_case_sensitive (selector : jsstring)
    (fuzzyMatch : bool) (acc : list jsstring) (signature : jsstring)
    (sigResult : CommandResult) :
  trim (message sigResult) <> selector ->
  match_signature selector fuzzyMatch acc signature sigResult
    <> acc ++ [signature]
  /\ valid_selector (map upper_hex selector) = valid_selector selector.
Proof.
  intros H. split; [|apply valid_selector_upper].
  apply str_eqb_neq in H. unfold match_signature. cbv zeta.
  rewrite H, andb_false_r.
  assert (N : acc <> acc ++ [signature]).
  { intros E. apply (f_equal (@length _)) in E. rewrite length_app in E.
    simpl in E. lia. }
  destruct (fuzzyMatch && success sigResult); [|exact N].
  destruct (str_eqb (substring0 _ _) _); [|exact N].
  intros E. apply app_inv_head in E. injection E as E.
  now apply partial_not_plain in E.
Qed.

Lemma C10_witness :
  trim (lit "0xa9059cbb" ++ nl) <> map upper_hex (lit "0xa9059cbb")
  /\ match_signature (map upper_hex (lit "0xa9059cbb")) true []
       (lit "transfer(address,uint256)")
       {| success := true; message := lit "0xa9059cbb" ++ nl |}
     <> [] ++ [lit "transfer(address,uint256)"].
Proof.
  assert (H : trim (lit "0xa9059cbb" ++ nl) <> map upper_hex (lit "0xa9059cbb"))
    by (vm_compute; discriminate).
  split; [exact H|].
  apply (C10_exact_match_is_case_sensitive
           (map upper_hex (lit "0xa9059cbb")) true []
           (lit "transfer(address,uint256)")
           {| success := true; message := lit "0xa9059cbb" ++ nl |} H).
Defined.

(* ===================================================================== *)
(** * Candidate lines of the signature file                               *)
(* ===================================================================== *)

Lemma includes_In (c : code_unit) (s : jsstring) :
  includes c s = true <-> In c s.
Proof.
  unfold includes. rewrite existsb_exists. split.
  - intros (d & Hd & E). apply N.eqb_eq in E. now subst.
  - intros H. exists c. split; [assumption|apply N.eqb_refl].
Qed.

Lemma candidateb_spec (line : jsstring) :
  candidateb line = true <-> is_candidate line.
Proof.
  unfold candidateb, is_candidate.
  rewrite !andb_true_iff, !negb_true_iff, str_eqb_neq, includes_In. tauto.
Qed.

Lemma filter_filter_and {A} (f g : A -> bool) (l : list A) :
  filter g (filter f l) = filter (fun x => f x && g x) l.
Proof.
  induction l as [|x l IH]; simpl; [reflexivity|].
  destruct (f x); simpl; [destruct (g x)|]; now rewrite IH.
Qed.

Lemma truthy_not_empty (s : jsstring) : truthy s = negb (str_eqb s []).
Proof. now destruct s. Qed.

Lemma file_signatures_candidates (fileContent : jsstring) :
  filter (includes 40%N) (file_signatures fileContent)
  = candidate_lines fileContent.
Proof.
  unfold file_signatures, candidate_lines. rewrite filter_filter_and.
  apply filter_ext. intros l. unfold candidateb. now rewrite truthy_not_empty.
Qed.

Lemma trace_file_signatures_candidates (fileContent : jsstring) :
  trace_file_signatures fileContent = candidate_lines fileContent.
Proof.
  unfold trace_file_signatures, candidate_lines.
  apply filter_ext. intros l. unfold candidateb. now rewrite truthy_not_empty.
Qed.

(** C9: whatever the content of the signature file, the lines whose
    selector is computed, in [cast_4byte_from_file] and in
    [analyze_transaction_trace] alike, are the candidate lines: the lines of
    the file, trimmed, that are not blank, do not start with [#] and hold an
    opening parenthesis.  No other call is made after the file is read. *)
Theorem C9_candidate_lines (w : World) (path fileContent : jsstring) :
  fs_access w path = true ->
  fs_readFile w path = inl fileContent ->
  (forall selector fuzzyMatch,
     foundry_installed w = true -> valid_selector selector = true ->
     effects (cast_4byte_from_file w selector path fuzzyMatch) =
     [EExec (forgePath w ++ lit " --version");
      EExec (castPath w ++ lit " 4byte " ++ selector);
      EAccess path; EReadFile path]
     ++ map (sig_call w) (candidate_lines fileContent))
  /\ (forall selector, path <> [] ->
      effects (local_lookup w (Some path) selector) =
      [EAccess path; EReadFile path]
      ++ map (sig_call w) (candidate_lines fileContent))
  /\ (forall line, In line (candidate_lines fileContent) <->
      is_candidate line
      /\ exists raw, trim raw = line /\ In raw (split 10%N fileContent)).
Proof.
  intros Hacc Hread. split; [|split].
  - intros selector fuzzyMatch Hinst Hvalid.
    unfold cast_4byte_from_file, checkFoundryInstalled, try_catch, access,
      readFile, executeCommand.
    rewrite Hinst, Hvalid, Hacc, Hread. cbn.
    destruct (length (file_signatures fileContent) =? 0) eqn:E.
    + apply Nat.eqb_eq, length_zero_iff_nil in E.
      rewrite <- file_signatures_candidates, E. reflexivity.
    + rewrite match_file_loop. unfold ret. cbn.
      now rewrite app_nil_r, file_signatures_candidates.
  - intros selector Hpath.
    unfold local_lookup, access, readFile.
    destruct path as [|c p]; [congruence|]. simpl truthy. cbv iota.
    rewrite Hacc, Hread. cbn.
    rewrite match_trace_loop. unfold ret. cbn.
    now rewrite trace_file_signatures_candidates.
  - intros line. unfold candidate_lines.
    rewrite filter_In, in_map_iff, candidateb_spec. tauto.
Qed.

Lemma C9_witness :
  candidate_lines sample_file
  = [lit "transfer(address,uint256)"; lit "approve(address,uint256)"]
  /\ effects (cast_4byte_from_file world_local (lit "0xa9059cbb")
                (lit "sigs.txt") false)
     = [EExec (lit "forge --version");
        EExec (lit "cast 4byte 0xa9059cbb");
        EAccess (lit "sigs.txt"); EReadFile (lit "sigs.txt")]
       ++ map (sig_call world_local) (candidate_lines sample_file).
Proof.
  split; [vm_compute; reflexivity|].
  refine (proj1 (C9_candidate_lines world_local (lit "sigs.txt") sample_file
                   _ _) (lit "0xa9059cbb") false _ _);
    vm_compute; reflexivity.
Defined.

(** What [cast_4byte_from_file] answers when the toolchain is found, the
    selector is well formed and the file is read: the verdicts on the
    candidate lines, next to the answer of the remote directory. *)
Lemma cast_4byte_from_file_read (w : World)
    (selector path fileContent : jsstring) (fuzzyMatch : bool) :
  foundry_installed w = true -> valid_selector selector = true ->
  fs_access w path = true -> fs_readFile w path = inl fileContent ->
  file_signatures fileContent <> [] ->
  outcome (cast_4byte_from_file w selector path fuzzyMatch)
  = Returned
      {| text :=
           compile_results selector
             (flat_map (line_verdict w selector fuzzyMatch)
                (candidate_lines fileContent))
             (signatures_of
                (command_result w (castPath w ++ lit " 4byte " ++ selector)));
         isError := false |}.
Proof.
  intros Hinst Hvalid Hacc Hread Hne.
  unfold cast_4byte_from_file, checkFoundryInstalled, try_catch, access,
    readFile, executeCommand.
  rewrite Hinst, Hvalid, Hacc, Hread. cbn.
  destruct (length (file_signatures fileContent) =? 0) eqn:E.
  - apply Nat.eqb_eq, length_zero_iff_nil in E. contradiction.
  - rewrite match_file_loop. unfold ret. cbn.
    now rewrite file_signatures_candidates.
Qed.

(** The local matches of a selector in [analyze_transaction_trace]: the
    signatures of the candidate lines whose selector is the target. *)
Lemma local_lookup_read (w : World) (selector path fileContent : jsstring) :
  path <> [] ->
  fs_access w path = true -> fs_readFile w path = inl fileContent ->
  outcome (local_lookup w (Some path) selector)
  = Returned (flat_map (line_verdict w selector false)
                (candidate_lines fileContent)).
Proof.
  intros Hpath Hacc Hread. unfold local_lookup, access, readFile.
  destruct path as [|c p]; [congruence|]. cbn [truthy].
  rewrite Hacc, Hread. cbn.
  rewrite match_trace_loop. unfold ret. cbn.
  now rewrite trace_file_signatures_candidates.
Qed.

Example cast_4byte_from_file_fuzzy :
  outcome (cast_4byte_from_file world_local (lit "0xa9051234")
             (lit "sigs.txt") true)
  = Returned
      {| text :=
           lit "Results for selector 0xa9051234:" ++ nl ++ nl
           ++ lit "Matching signatures from local file:" ++ nl
           ++ lit "transfer(address,uint256) (partial match: 0xa9059cbb)"
           ++ nl ++ nl
           ++ lit "No signatures found in 4byte directory.";
         isError := false |}.
Proof. vm_compute. reflexivity. Qed.

(* ===================================================================== *)
(** * Report builder                                                      *)
(* ===================================================================== *)

Lemma fold_items (l : list jsstring) (init : jsstring) :
  fold_left (fun output sig => output ++ lit "    - " ++ sig ++ nl) l init
  = init ++ listing l.
Proof.
  revert init; induction l as [|x l IH]; intros init; unfold listing;
    cbn [fold_left map concat].
  - now rewrite app_nil_r.
  - rewrite IH. unfold listing, item. now rewrite <- !app_assoc.
Qed.

Example report_seven_online :
  online_section
    (Some {| online := [lit "a()"; lit "b()"; lit "c()"; lit "d()";
                        lit "e()"; lit "f()"; lit "g()"];
             local := [] |})
  = lit "  Online matches (7):" ++ nl
    ++ listing [lit "a()"; lit "b()"; lit "c()"; lit "d()"; lit "e()"]
    ++ lit "    - ... and 2 more" ++ nl.
Proof. vm_compute. reflexivity. Qed.

Example report_four_online :
  online_section
    (Some {| online := [lit "a()"; lit "b()"; lit "c()"; lit "d()"];
             local := [] |})
  = lit "  Online matches (4):" ++ nl
    ++ listing [lit "a()"; lit "b()"; lit "c()"; lit "d()"].
Proof. vm_compute. reflexivity. Qed.

(* ===================================================================== *)
(** * Match ranker for the inline annotation                              *)
(* ===================================================================== *)

Lemma insert_by_length_perm (x : jsstring) (l : list jsstring) :
  Permutation (insert_by_length x l) (x :: l).
Proof.
  induction l as [|y r IH]; simpl; [reflexivity|].
  destruct (length x <=? length y); [reflexivity|].
  rewrite IH. apply perm_swap.
Qed.

Lemma sort_by_length_perm (l : list jsstring) :
  Permutation (sort_by_length l) l.
Proof.
  induction l as [|x r IH]; simpl; [reflexivity|].
  rewrite insert_by_length_perm. now constructor.
Qed.

Lemma insert_by_length_sorted (x : jsstring) (l : list jsstring) :
  Sorted shorter_eq l -> Sorted shorter_eq (insert_by_length x l).
Proof.
  induction l as [|y r IH]; intros H; simpl.
  - repeat constructor.
  - destruct (Nat.leb_spec (length x) (length y)) as [L|L].
    + constructor; [assumption|]. now constructor.
    + apply Sorted_inv in H. destruct H as [Hs Hh].
      constructor; [now apply IH|].
      destruct r as [|z r]; simpl.
      * constructor. unfold shorter_eq. lia.
      * destruct (length x <=? length z); constructor.
        -- unfold shorter_eq. lia.
        -- now inversion Hh.
Qed.

Lemma sort_by_length_sorted (l : list jsstring) :
  StronglySorted shorter_eq (sort_by_length l).
Proof.
  apply Sorted_StronglySorted.
  - intros a b c. unfold shorter_eq. lia.
  - induction l as [|x r IH]; simpl; [constructor|].
    now apply insert_by_length_sorted.
Qed.

(** The sort is stable: signatures of equal length keep their order. *)
Lemma insert_by_length_stable (n : nat) (x : jsstring) (l : list jsstring) :
  of_length n (insert_by_length x l) = of_length n (x :: l).
Proof.
  unfold of_length.
  induction l as [|y r IH]; simpl; [reflexivity|].
  destruct (Nat.leb_spec (length x) (length y)) as [L|L]; [reflexivity|].
  simpl. rewrite IH. simpl.
  destruct (Nat.eqb_spec (length x) n) as [E|E];
    destruct (Nat.eqb_spec (length y) n) as [F|F]; try reflexivity. lia.
Qed.

Lemma sort_by_length_stable (n : nat) (l : list jsstring) :
  of_length n (sort_by_length l) = of_length n l.
Proof.
  induction l as [|x r IH]; simpl; [reflexivity|].
  rewrite insert_by_length_stable. unfold of_length in *. simpl.
  now rewrite IH.
Qed.

Lemma remote_lookup_run (w : World) (rpcUrl : jsstring)
    (selectorMap : list (jsstring * list jsstring)) (selector : jsstring) :
  exists m,
    remote_lookup w rpcUrl selectorMap selector
    = (Returned m, [lookup_call w rpcUrl selector]).
Proof.
  unfold remote_lookup, executeCommand, lookup_call, bind.
  destruct (success _ && truthy _); eexists; reflexivity.
Qed.

(** The loop of lines 589-597 looks every selector up in the remote
    directory, and does nothing else. *)
Lemma remote_lookup_loop (w : World) (rpcUrl : jsstring) :
  forall selectors selectorMap,
    exists m,
      for_of selectors (remote_lookup w rpcUrl) selectorMap
      = (Returned m, map (lookup_call w rpcUrl) selectors).
Proof.
  induction selectors as [|x r IH]; intros selectorMap; cbn [for_of map].
  - now exists selectorMap.
  - destruct (remote_lookup_run w rpcUrl selectorMap x) as [m' ->].
    destruct (IH m') as [m Hm]. rewrite bind_returned, Hm.
    now exists m.
Qed.

(** C5, as amended: for the inline annotation of [processFunctionSelectors]
    the candidates of a selector are the remote ones alone (one lookup in
    the remote directory per selector is all this path asks of the outside
    world); they are sorted by length, shortest first and stably, at most
    the first three are kept and joined with [ or ] behind [Likely: ]. *)
Theorem C5_inline_choice (w : World) (processedOutput selector : jsstring)
    (signatures : list jsstring) :
  signatures <> [] ->
  let sorted := sort_by_length signatures in
  let chosen := firstn 3 sorted in
  Permutation sorted signatures
  /\ StronglySorted shorter_eq sorted
  /\ (forall n, of_length n sorted = of_length n signatures)
  /\ length chosen <= 3
  /\ annotate_likely processedOutput (selector, signatures)
     = annotate selector (lit "Likely: " ++ join (lit " or ") chosen)
         processedOutput
  /\ forall traceOutput rpcUrl,
       effects (processFunctionSelectors w traceOutput rpcUrl)
       = map (lookup_call w rpcUrl) (extract_selectors traceOutput).
Proof.
  intros Hne sorted chosen.
  split; [apply sort_by_length_perm|].
  split; [apply sort_by_length_sorted|].
  split; [intros n; apply sort_by_length_stable|].
  split; [apply firstn_le_length|].
  split.
  - unfold annotate_likely. destruct signatures as [|s r]; [congruence|].
    reflexivity.
  - intros traceOutput rpcUrl. unfold processFunctionSelectors.
    destruct (extract_selectors traceOutput) as [|x r] eqn:E; [reflexivity|].
    cbn [length Nat.eqb].
    destruct (remote_lookup_loop w rpcUrl (x :: r) []) as [m Hm].
    rewrite Hm. unfold ret. cbn. now rewrite app_nil_r.
Qed.

Lemma C5_witness :
  [lit "transfer(address,uint256)"; lit "mint(uint256)"] <> []
  /\ annotate_likely (lit "CALL 0xa9059cbb")
       (lit "0xa9059cbb", [lit "transfer(address,uint256)"; lit "mint(uint256)"])
     = annotate (lit "0xa9059cbb")
         (lit "Likely: "
          ++ join (lit " or ")
               (firstn 3 (sort_by_length
                  [lit "transfer(address,uint256)"; lit "mint(uint256)"])))
         (lit "CALL 0xa9059cbb").
Proof.
  assert (H : [lit "transfer(address,uint256)"; lit "mint(uint256)"] <> [])
    by discriminate.
  split; [exact H|].
  exact (proj1 (proj2 (proj2 (proj2 (proj2
           (C5_inline_choice world_both (lit "CALL 0xa9059cbb")
              (lit "0xa9059cbb")
              [lit "transfer(address,uint256)"; lit "mint(uint256)"] H)))))).
Defined.

(** The claim as it stands fails: where the local file resolves the
    selector of the trace to [transfer(address,uint256)] and the remote
    directory to [mint(uint256)], the inline annotation shows the remote
    candidate, not the local one that the specification prefers. *)
Lemma C5_counterexample :
  outcome (local_lookup world_both (Some (lit "sigs.txt")) (lit "0xa9059cbb"))
  = Returned [lit "transfer(address,uint256)"]
  /\ outcome (processFunctionSelectors world_both (lit "CALL 0xa9059cbb")
                (lit "http://localhost:8545"))
     = Returned (lit "CALL 0xa9059cbb [Likely: mint(uint256)]")
  /\ outcome (processFunctionSelectors world_both (lit "CALL 0xa9059cbb")
                (lit "http://localhost:8545"))
     <> Returned
          (annotate (lit "0xa9059cbb")
             (lit "Likely: "
              ++ join (lit " or ")
                   (spec_inline_choice [lit "transfer(address,uint256)"]
                      [lit "mint(uint256)"]))
             (lit "CALL 0xa9059cbb")).
Proof.
  split; [vm_compute; reflexivity|].
  split; [vm_compute; reflexivity|].
  vm_compute. discriminate.
Qed.

(* ===================================================================== *)
(** * A trace without selectors                                           *)
(* ===================================================================== *)

(** C7, as amended: when the trace holds no selector both paths stop
    before any lookup.  [processFunctionSelectors] hands the trace text back
    as it is, with no report; [analyze_transaction_trace] answers with the
    one sentence that no function selectors were found, without the trace
    text, after the three calls that obtain the trace. *)
Theorem C7_no_selectors (w : World) :
  (forall traceOutput rpcUrl,
     extract_selectors traceOutput = [] ->
     processFunctionSelectors w traceOutput rpcUrl = (Returned traceOutput, []))
  /\ (forall txHash rpcUrl signatureFile knownAddresses,
        let traceCommand :=
          trace_command w txHash (resolveRpcUrl_of w rpcUrl) knownAddresses in
        foundry_installed w = true ->
        success (command_result w traceCommand) = true ->
        extract_selectors (message (command_result w traceCommand)) = [] ->
        analyze_transaction_trace w txHash rpcUrl signatureFile knownAddresses
        = (Returned
             {| text := lit "No function selectors found in the transaction trace.";
                isError := false |},
           [EExec (forgePath w ++ lit " --version"); EResolveRpc rpcUrl;
            EExec traceCommand])).
Proof.
  split.
  - intros traceOutput rpcUrl H. unfold processFunctionSelectors.
    now rewrite H.
  - intros txHash rpcUrl signatureFile knownAddresses traceCommand Hi Hs He.
    unfold analyze_transaction_trace, checkFoundryInstalled, resolveRpcUrl,
      executeCommand.
    rewrite Hi. cbn [bind negb]. fold traceCommand.
    rewrite Hs, He. reflexivity.
Qed.

Lemma C7_witness :
  extract_selectors (lit "CALL target::fallback()") = []
  /\ processFunctionSelectors world_plain (lit "CALL target::fallback()")
       (lit "http://localhost:8545")
     = (Returned (lit "CALL target::fallback()"), []).
Proof.
  assert (H : extract_selectors (lit "CALL target::fallback()") = [])
    by (vm_compute; reflexivity).
  split; [exact H|].
  exact (proj1 (C7_no_selectors world_plain) (lit "CALL target::fallback()")
           (lit "http://localhost:8545") H).
Defined.

(** The claim as it stands fails: for a trace without selectors the answer
    of [analyze_transaction_trace] does not hold the trace text, and what
    [processFunctionSelectors] hands back says nothing about selectors. *)
Lemma C7_counterexample :
  extract_selectors (lit "CALL target::fallback()") = []
  /\ outcome (analyze_transaction_trace world_plain (lit "0xdead")
                (lit "http://localhost:8545") None [])
     = Returned
         {| text := lit "No function selectors found in the transaction trace.";
            isError := false |}
  /\ infixb (lit "CALL target::fallback()")
       (lit "No function selectors found in the transaction trace.") = false
  /\ outcome (processFunctionSelectors world_plain
                (lit "CALL target::fallback()") (lit "http://localhost:8545"))
     = Returned (lit "CALL target::fallback()")
  /\ infixb (lit "selector") (lit "CALL target::fallback()") = false.
Proof. repeat split; vm_compute; reflexivity. Qed.

(* ===================================================================== *)
(** * A signature file that does not exist                                *)
(* ===================================================================== *)

(** A loop whose body always returns and whose calls do not depend on the
    state is a fold. *)
Lemma for_of_fold {A S} (body : S -> A -> Async S) (f : S -> A -> S)
    (g : A -> list Effect) :
  (forall s x, body s x = (Returned (f s x), g x)) ->
  forall xs s, for_of xs body s = (Returned (fold_left f xs s), flat_map g xs).
Proof.
  intros H; induction xs as [|x xs IH]; intros s; cbn [for_of fold_left flat_map].
  - reflexivity.
  - now rewrite H, bind_returned, IH.
Qed.

Lemma resolve_selector_none (w : World) (selectorMap : list (jsstring * Entry))
    (selector : jsstring) :
  resolve_selector w None selectorMap selector
  = (Returned (remote_only w selectorMap selector),
     [EExec (castPath w ++ lit " 4byte " ++ selector)]).
Proof. reflexivity. Qed.

Lemma resolve_selector_missing (w : World) (path : jsstring)
    (selectorMap : list (jsstring * Entry)) (selector : jsstring) :
  fs_access w path = false ->
  resolve_selector w (Some path) selectorMap selector
  = (Returned (remote_only w selectorMap selector),
     EExec (castPath w ++ lit " 4byte " ++ selector)
     :: (if truthy path then [EAccess path] else [])).
Proof.
  intros H. unfold resolve_selector, local_lookup, access, executeCommand.
  destruct (truthy path); [rewrite H|]; reflexivity.
Qed.

(** What [analyze_transaction_trace] answers once the toolchain is found
    and the trace obtained, when no selector has a local match. *)
Lemma analyze_without_local (w : World) (txHash rpcUrl : jsstring)
    (signatureFile : option jsstring) (knownAddresses : list jsstring)
    (g : jsstring -> list Effect) :
  (forall selectorMap selector,
     resolve_selector w signatureFile selectorMap selector
     = (Returned (remote_only w selectorMap selector), g selector)) ->
  let traceResult :=
    command_result w
      (trace_command w txHash (resolveRpcUrl_of w rpcUrl) knownAddresses) in
  let selectors := extract_selectors (message traceResult) in
  outcome (analyze_transaction_trace w txHash rpcUrl signatureFile
             knownAddresses)
  = Returned
      (if negb (foundry_installed w)
       then {| text := FOUNDRY_NOT_INSTALLED_ERROR w; isError := true |}
       else if negb (success traceResult)
       then {| text := lit "Failed to trace transaction: "
                       ++ message traceResult;
               isError := true |}
       else if length selectors =? 0
       then {| text := lit "No function selectors found in the transaction trace.";
               isError := false |}
       else {| text := build_report txHash selectors
                         (fold_left (remote_only w) selectors [])
                         (message traceResult);
               isError := false |}).
Proof.
  intros H traceResult selectors.
  unfold analyze_transaction_trace, checkFoundryInstalled, resolveRpcUrl,
    executeCommand.
  destruct (foundry_installed w); cbn [bind negb]; [|reflexivity].
  fold traceResult.
  destruct (success traceResult); cbn [negb]; [|reflexivity].
  fold selectors.
  destruct (length selectors =? 0); [reflexivity|].
  rewrite (for_of_fold _ _ _ H). reflexivity.
Qed.

(** C8: when the signature file does not exist, [cast_4byte_from_file]
    answers with an error, which is the message that the signatures file
    was not found once the toolchain is found and the selector is well
    formed, and it neither reads the file nor computes the selector of any
    signature; [analyze_transaction_trace] answers as it does without a
    signature file: every selector gets an empty list of local matches and
    the report is built in full. *)
Theorem C8_missing_signature_file (w : World) (path : jsstring) :
  fs_access w path = false ->
  (forall selector fuzzyMatch,
     exists r,
       outcome (cast_4byte_from_file w selector path fuzzyMatch) = Returned r
       /\ isError r = true
       /\ (foundry_installed w = true -> valid_selector selector = true ->
           text r = lit "Signatures file not found: " ++ path
           /\ effects (cast_4byte_from_file w selector path fuzzyMatch)
              = [EExec (forgePath w ++ lit " --version");
                 EExec (castPath w ++ lit " 4byte " ++ selector);
                 EAccess path]))
  /\ (forall selector,
        outcome (local_lookup w (Some path) selector) = Returned [])
  /\ (forall txHash rpcUrl knownAddresses,
        let traceResult :=
          command_result w
            (trace_command w txHash (resolveRpcUrl_of w rpcUrl)
               knownAddresses) in
        let selectors := extract_selectors (message traceResult) in
        outcome (analyze_transaction_trace w txHash rpcUrl (Some path)
                   knownAddresses)
        = outcome (analyze_transaction_trace w txHash rpcUrl None
                     knownAddresses)
        /\ (foundry_installed w = true -> success traceResult = true ->
            selectors <> [] ->
            outcome (analyze_transaction_trace w txHash rpcUrl (Some path)
                       knownAddresses)
            = Returned
                {| text := build_report txHash selectors
                             (fold_left (remote_only w) selectors [])
                             (message traceResult);
                   isError := false |})).
Proof.
  intros Hacc. split; [|split].
  - intros selector fuzzyMatch.
    unfold cast_4byte_from_file, checkFoundryInstalled, try_catch, access,
      executeCommand.
    destruct (foundry_installed w); cbn [bind negb].
    + destruct (valid_selector selector); cbn [bind negb].
      * rewrite Hacc. cbn. eexists. repeat split.
      * eexists. repeat split; intros; discriminate.
    + eexists. repeat split; intros; discriminate.
  - intros selector. unfold local_lookup, access.
    destruct (truthy path); [rewrite Hacc|]; reflexivity.
  - intros txHash rpcUrl knownAddresses traceResult selectors.
    pose proof (analyze_without_local w txHash rpcUrl (Some path)
                  knownAddresses _
                  (fun m s => resolve_selector_missing w path m s Hacc)) as H1.
    pose proof (analyze_without_local w txHash rpcUrl None knownAddresses _
                  (resolve_selector_none w)) as H2.
    cbv zeta in H1, H2. fold traceResult in H1, H2. fold selectors in H1, H2.
    split; [now rewrite H1, H2|].
    intros Hi Hs Hn. rewrite H1, Hi, Hs. cbn [negb].
    destruct selectors; [congruence|reflexivity].
Qed.

Lemma C8_witness :
  fs_access world_local (lit "missing.txt") = false
  /\ exists r,
       outcome (cast_4byte_from_file world_local (lit "0xa9059cbb")
                  (lit "missing.txt") false) = Returned r
       /\ isError r = true
       /\ text r = lit "Signatures file not found: missing.txt".
Proof.
  assert (H : fs_access world_local (lit "missing.txt") = false)
    by (vm_compute; reflexivity).
  split; [exact H|].
  destruct (proj1 (C8_missing_signature_file world_local (lit "missing.txt") H)
              (lit "0xa9059cbb") false) as (r & H1 & H2 & H3).
  exists r. split; [exact H1|]. split; [exact H2|].
  destruct H3 as [H3 _]; [vm_compute; reflexivity ..|].
  rewrite H3. vm_compute. reflexivity.
Defined.

(* ===================================================================== *)
(** * Trace annotator                                                     *)
(* ===================================================================== *)

Lemma getSubstitution_plain (matched before after templ : jsstring) :
  plain templ -> getSubstitution matched before after templ = templ.
Proof.
  unfold plain. induction templ as [|c t IH]; intros H; [reflexivity|].
  cbn [forallb] in H. apply andb_true_iff in H. destruct H as [Hc Ht].
  apply negb_true_iff in Hc. cbn [getSubstitution]. rewrite Hc.
  now rewrite IH.
Qed.

Lemma plain_app (a b : jsstring) : plain (a ++ b) <-> plain a /\ plain b.
Proof. unfold plain. now rewrite forallb_app, andb_true_iff. Qed.

Section Replace.

Variable pat : pattern.
Variable templ : jsstring.

(** Code units that a match covers are passed over. *)
Lemma replace_from_skip (str : jsstring) : forall k s pos,
  replace_from pat templ str k pos s
  = replace_from pat templ str 0 (pos + k) (skipn k s).
Proof.
  induction k as [|k IH]; intros s pos.
  - now rewrite Nat.add_0_r.
  - destruct s as [|c r]; [reflexivity|].
    cbn [replace_from skipn]. rewrite IH. f_equal. lia.
Qed.

Hypothesis templ_plain : plain templ.

(** A plain replacement text does not look at the subject. *)
Lemma replace_from_subject : forall s skip pos str pos' str',
  replace_from pat templ str skip pos s
  = replace_from pat templ str' skip pos' s.
Proof.
  induction s as [|c r IH]; intros skip pos str pos' str'; [reflexivity|].
  cbn [replace_from]. destruct skip as [|k]; [|apply IH].
  destruct (pat (c :: r)) as [n|].
  - rewrite !getSubstitution_plain by assumption. f_equal. apply IH.
  - f_equal. apply IH.
Qed.

Lemma replace_nil : replace pat templ [] = [].
Proof. reflexivity. Qed.

Lemma replace_miss (c : code_unit) (r : jsstring) :
  pat (c :: r) = None ->
  replace pat templ (c :: r) = c :: replace pat templ r.
Proof.
  intros H. unfold replace. cbn [replace_from]. rewrite H. f_equal.
  apply replace_from_subject.
Qed.

Lemma replace_hit (c : code_unit) (r : jsstring) (n : nat) :
  pat (c :: r) = Some (S n) ->
  replace pat templ (c :: r) = templ ++ replace pat templ (skipn n r).
Proof.
  intros H. unfold replace. cbn [replace_from].
  rewrite H, getSubstitution_plain by assumption.
  f_equal. cbn [pred]. rewrite replace_from_skip.
  apply replace_from_subject.
Qed.

End Replace.

Lemma prefixb_app (needle rest : jsstring) : prefixb needle (needle ++ rest) = true.
Proof. apply prefixb_firstn. now rewrite firstn_app, Nat.sub_diag, firstn_all, firstn_O, app_nil_r. Qed.

Lemma prefixb_window (needle : jsstring) : forall n s,
  length needle <= n -> prefixb needle (firstn n s) = prefixb needle s.
Proof.
  induction needle as [|x needle IH]; intros n s H; [reflexivity|].
  destruct n as [|n]; [simpl in H; lia|].
  destruct s as [|y s]; [reflexivity|].
  cbn [firstn prefixb]. rewrite IH; [reflexivity|]. simpl in H. lia.
Qed.

Lemma no_hex_ahead_window (s : jsstring) :
  no_hex_ahead (firstn 1 s) = no_hex_ahead s.
Proof. now destruct s. Qed.

Section Annotate.

Variable sel : jsstring.
Hypothesis sel_valid : valid_selector sel = true.

Lemma sel_shape :
  exists h, sel = 48%N :: 120%N :: h /\ length h = 8 /\ forallb is_hex h = true.
Proof.
  unfold valid_selector in sel_valid.
  destruct sel as [|c0 [|c1 h]]; try discriminate.
  rewrite !andb_true_iff, !N.eqb_eq, Nat.eqb_eq in sel_valid.
  destruct sel_valid as [[[-> ->] Hl] Hh]. now exists h.
Qed.

Lemma sel_length : length sel = 10.
Proof. now apply valid_selector_length. Qed.

Lemma sel_plain : plain sel.
Proof.
  destruct sel_shape as (h & -> & _ & Hh). unfold plain. cbn [forallb].
  change (negb (48 =? 36)%N && (negb (120 =? 36)%N && forallb (fun c => negb (c =? 36)%N) h) = true).
  cbn [N.eqb Pos.eqb negb andb].
  rewrite forallb_forall in *. intros c Hc. apply Hh in Hc.
  apply negb_true_iff, N.eqb_neq. intros ->. discriminate.
Qed.

(** What a match of the pattern built from [sel] means. *)
Lemma occurrence_Some (s : jsstring) (n : nat) :
  selectorOccurrence sel s = Some n ->
  n = 10 /\ exists rest, s = sel ++ rest /\ no_hex_ahead rest = true.
Proof.
  unfold selectorOccurrence. rewrite sel_length.
  destruct (prefixb sel s && _) eqn:E; [|discriminate].
  intros H; injection H as <-. split; [reflexivity|].
  apply andb_true_iff in E. destruct E as [Ep Eh].
  apply prefixb_firstn in Ep. rewrite sel_length in Ep.
  exists (skipn 10 s). split; [|assumption].
  symmetry. rewrite <- Ep. apply firstn_skipn.
Qed.

Lemma occurrence_hit (rest : jsstring) :
  no_hex_ahead rest = true -> selectorOccurrence sel (sel ++ rest) = Some 10.
Proof.
  intros H. unfold selectorOccurrence.
  rewrite prefixb_app, skipn_app, Nat.sub_diag, skipn_all, sel_length.
  cbn [app skipn andb]. now rewrite H.
Qed.

Lemma occurrence_starts_0x (s : jsstring) :
  starts_0x s = false -> selectorOccurrence sel s = None.
Proof.
  intros H. destruct (selectorOccurrence sel s) as [n|] eqn:E; [|reflexivity].
  apply occurrence_Some in E. destruct E as (_ & rest & -> & _).
  destruct sel_shape as (h & -> & _). unfold starts_0x in H.
  cbn in H. discriminate.
Qed.

(** The pattern looks at eleven code units. *)
Lemma occurrence_window (s s' : jsstring) :
  firstn 11 s = firstn 11 s' ->
  selectorOccurrence sel s = selectorOccurrence sel s'.
Proof.
  assert (W : forall t, selectorOccurrence sel t
                        = selectorOccurrence sel (firstn 11 t)).
  { intros t. unfold selectorOccurrence.
    rewrite prefixb_window by (rewrite sel_length; lia).
    rewrite sel_length, skipn_firstn_comm. cbn [Nat.sub].
    now rewrite no_hex_ahead_window. }
  intros H. now rewrite (W s), (W s'), H.
Qed.

Section Annotation.

Variable ann : jsstring.
Hypothesis ann_plain : plain ann.

Local Abbreviation T := (sel ++ lit " [" ++ ann ++ lit "]").

Lemma T_plain : plain T.
Proof. rewrite !plain_app. repeat split; auto using sel_plain. Qed.

Lemma annotate_nil : annotate sel ann [] = [].
Proof. reflexivity. Qed.

(** An occurrence of the selector with no hex digit behind it is rewritten,
    and the search resumes behind it. *)
Lemma annotate_hit (rest : jsstring) :
  no_hex_ahead rest = true ->
  annotate sel ann (sel ++ rest)
  = sel ++ lit " [" ++ ann ++ lit "]" ++ annotate sel ann rest.
Proof.
  intros H. pose proof (occurrence_hit rest H) as Hp.
  destruct sel_shape as (h & E & Hl & _).
  assert (Hs : sel ++ rest = 48%N :: 120%N :: h ++ rest) by now rewrite E.
  rewrite Hs in Hp. unfold annotate. rewrite Hs.
  rewrite (replace_hit _ _ T_plain _ _ 9 Hp).
  replace (skipn 9 (120%N :: h ++ rest)) with rest.
  - now rewrite <- !app_assoc.
  - change (rest = skipn 8 (h ++ rest)).
    rewrite skipn_app, Hl, skipn_all2 by lia. reflexivity.
Qed.

(** Everything else is kept. *)
Lemma annotate_miss (c : code_unit) (r : jsstring) :
  selectorOccurrence sel (c :: r) = None ->
  annotate sel ann (c :: r) = c :: annotate sel ann r.
Proof.
  intros H. unfold annotate. apply replace_miss; [apply T_plain|exact H].
Qed.

End Annotation.

End Annotate.

Section Twice.

Variables sel ann : jsstring.
Hypothesis sel_valid : valid_selector sel = true.
Hypothesis ann_plain : plain ann.

(** Annotating keeps the first ten code units of a text. *)
Lemma annotate_window : forall r n,
  n <= 10 -> firstn n (annotate sel ann r) = firstn n r.
Proof.
  induction r as [|c r IH]; intros n Hn; [reflexivity|].
  destruct (selectorOccurrence sel (c :: r)) as [m|] eqn:E.
  - apply (occurrence_Some sel sel_valid) in E.
    destruct E as (_ & rest & -> & Hh).
    rewrite (annotate_hit sel sel_valid ann ann_plain rest Hh).
    rewrite !firstn_app, (sel_length sel sel_valid).
    replace (n - 10) with 0 by lia. reflexivity.
  - rewrite (annotate_miss sel sel_valid ann ann_plain c r E).
    destruct n as [|n]; [reflexivity|].
    cbn [firstn]. f_equal. apply IH. lia.
Qed.

(** Where the pattern does not match, it does not match after the rest has
    been annotated either. *)
Lemma annotate_head_miss (c : code_unit) (r : jsstring) :
  selectorOccurrence sel (c :: r) = None ->
  selectorOccurrence sel (c :: annotate sel ann r) = None.
Proof.
  intros H. rewrite <- H. apply (occurrence_window sel sel_valid).
  change (c :: firstn 10 (annotate sel ann r) = c :: firstn 10 r).
  f_equal. now apply annotate_window.
Qed.

(** A text without [0x], closed by a bracket, is passed through. *)
Lemma annotate_through : forall a X,
  infixb (lit "0x") a = false ->
  annotate sel ann (a ++ 93%N :: X) = a ++ 93%N :: annotate sel ann X.
Proof.
  induction a as [|c a IH]; intros X H; cbn [app].
  - now apply (annotate_miss sel sel_valid ann ann_plain),
      (occurrence_starts_0x sel sel_valid).
  - cbn [infixb] in H. apply orb_false_iff in H. destruct H as [Hp Hi].
    rewrite (annotate_miss sel sel_valid ann ann_plain).
    + f_equal. now apply IH.
    + apply (occurrence_starts_0x sel sel_valid).
      unfold starts_0x. change (lit "0x") with [48%N; 120%N] in Hp.
      destruct a as [|d a]; cbn [app prefixb] in *.
      * change (120 =? 93)%N with false. now rewrite andb_false_r.
      * exact Hp.
Qed.

Hypothesis ann_clean : infixb (lit "0x") ann = false.

Lemma twice_plain : plain (ann ++ lit "] [" ++ ann).
Proof. rewrite !plain_app. repeat split; auto. Qed.

(** Annotating an annotated text puts a second bracket behind every
    selector that the first pass annotated: the result is what one pass with
    the doubled annotation gives. *)
Theorem annotate_twice (text : jsstring) :
  annotate sel ann (annotate sel ann text)
  = annotate sel (ann ++ lit "] [" ++ ann) text.
Proof.
  assert (G : forall n s, length s <= n ->
                annotate sel ann (annotate sel ann s)
                = annotate sel (ann ++ lit "] [" ++ ann) s);
    [|now apply (G (length text))].
  induction n as [|n IH]; intros s Hs.
  - destruct s; [reflexivity|simpl in Hs; lia].
  - destruct s as [|c r]; [reflexivity|].
    destruct (selectorOccurrence sel (c :: r)) as [m|] eqn:E.
    + apply (occurrence_Some sel sel_valid) in E.
      destruct E as (_ & rest & Es & Hh). rewrite Es in *.
      rewrite (annotate_hit sel sel_valid ann ann_plain rest Hh).
      rewrite (annotate_hit sel sel_valid _ twice_plain rest Hh).
      rewrite (annotate_hit sel sel_valid ann ann_plain) by reflexivity.
      change (lit " [") with [32%N; 91%N]. change (lit "]") with [93%N].
      change (lit "] [") with [93%N; 32%N; 91%N]. cbn [app].
      rewrite 2 (annotate_miss sel sel_valid ann ann_plain)
        by now apply (occurrence_starts_0x sel sel_valid).
      rewrite annotate_through by assumption.
      rewrite IH.
      * rewrite <- !app_assoc. reflexivity.
      * rewrite length_app, (sel_length sel sel_valid) in Hs. lia.
    + rewrite (annotate_miss sel sel_valid ann ann_plain c r E).
      rewrite (annotate_miss sel sel_valid _ twice_plain c r E).
      rewrite (annotate_miss sel sel_valid ann ann_plain)
        by now apply annotate_head_miss.
      f_equal. apply IH. simpl in Hs. lia.
Qed.

End Twice.

Example annotate_twice_example :
  annotate (lit "0xabcdabcd") (lit "transfer(address,uint256)")
    (annotate (lit "0xabcdabcd") (lit "transfer(address,uint256)")
       (lit "CALL 0xabcdabcd, 0xabcdabcdef"))
  = lit "CALL 0xabcdabcd [transfer(address,uint256)] [transfer(address,uint256)], 0xabcdabcdef".
Proof. vm_compute. reflexivity. Qed.

(** C6: the annotator hands the annotation to [String.prototype.replace] as
    a replacement text, in which a dollar sign is special.  The remote
    directory answers [$$(uint256)], the signature of a function named
    [$$], for the selector of the trace; the trace is not annotated with
    that signature but with [$(uint256)], in the inline annotation and in
    the simplified trace alike. *)
Theorem C6_dollar_in_annotation :
  signatures_of
    (command_result world_dollar
       (lit "cast 4byte 0xabcdabcd --rpc-url "
        ++ quoted (lit "http://localhost:8545")))
  = [lit "$$(uint256)"]
  /\ outcome (processFunctionSelectors world_dollar (lit "CALL 0xabcdabcd")
                (lit "http://localhost:8545"))
     = Returned (lit "CALL 0xabcdabcd [Likely: $(uint256)]")
  /\ annotate (lit "0xabcdabcd") (lit "$$(uint256)") (lit "CALL 0xabcdabcd")
     = lit "CALL 0xabcdabcd [$(uint256)]"
  /\ annotate (lit "0xabcdabcd") (lit "$$(uint256)") (lit "CALL 0xabcdabcd")
     <> lit "CALL 0xabcdabcd [$$(uint256)]".
Proof.
  repeat split; try (vm_compute; reflexivity). vm_compute. discriminate.
Qed.

(* ===================================================================== *)
(** * More on the selector extractor                                      *)
(* ===================================================================== *)

Lemma exec_all_short (pat : pattern) : forall s skip pos,
  length s <= skip -> exec_all pat skip pos s = [].
Proof.
  induction s as [|c r IH]; intros skip pos H; [reflexivity|].
  destruct skip as [|k]; [simpl in H; lia|].
  cbn [exec_all]. apply IH. simpl in H. lia.
Qed.

(** The validation of [cast_4byte_from_file] accepts exactly the strings
    that the extractor extracts whole. *)
Theorem valid_selector_extracted (s : jsstring) :
  valid_selector s = true <-> extract_selectors s = [s].
Proof.
  split.
  - intros H. unfold valid_selector in H.
    destruct s as [|c0 [|c1 r]]; try discriminate.
    rewrite !andb_true_iff, !N.eqb_eq, Nat.eqb_eq in H.
    destruct H as [[[-> ->] Hl] Hh].
    unfold extract_selectors, match_, matchAll. cbn [exec_all selectorRegex].
    rewrite firstn_all2, skipn_all2 by lia. rewrite Hl, Hh.
    cbn [N.eqb Pos.eqb Nat.eqb andb no_hex_ahead pred map snd].
    rewrite exec_all_short by (simpl; lia).
    change (firstn 10 (48%N :: 120%N :: r)) with (48%N :: 120%N :: firstn 8 r).
    rewrite firstn_all2 by lia. reflexivity.
  - intros H.
    assert (I : In s (extract_selectors s)) by (rewrite H; now left).
    unfold extract_selectors in I. apply (proj1 (Set_of_In _ _)) in I.
    unfold match_ in I. apply in_map_iff in I.
    destruct I as ([pos e] & E & I). simpl in E. subst e.
    now apply matchAll_selector in I.
Qed.

Lemma matchAll_complete_witness :
  selectorRegex (skipn 5 (lit "CALL 0xabcdabcd")) = Some 10
  /\ ((exists e, In (5, e) (matchAll selectorRegex (lit "CALL 0xabcdabcd")))
      \/ (exists p e,
            In (p, e) (matchAll selectorRegex (lit "CALL 0xabcdabcd"))
            /\ 5 = p + 9)).
Proof.
  assert (H : selectorRegex (skipn 5 (lit "CALL 0xabcdabcd")) = Some 10)
    by (vm_compute; reflexivity).
  split; [exact H|]. exact (matchAll_complete (lit "CALL 0xabcdabcd") 5 H).
Defined.

(* ===================================================================== *)
(** * More on the trace annotator                                         *)
(* ===================================================================== *)

(** A text in which the selector does not stand is left as it is, whatever
    the annotation. *)
Lemma replace_from_absent (sel templ str : jsstring) : forall s pos,
  infixb sel s = false ->
  replace_from (selectorOccurrence sel) templ str 0 pos s = s.
Proof.
  induction s as [|c r IH]; intros pos H; [reflexivity|].
  cbn [infixb] in H. apply orb_false_iff in H. destruct H as [Hp Hi].
  cbn [replace_from]. unfold selectorOccurrence at 1. rewrite Hp.
  cbn [andb]. f_equal. now apply IH.
Qed.

(** A text that does not hold the selector is left as it is by the
    annotator, whatever the annotation. *)
Theorem annotate_absent (selector annotation text : jsstring) :
  infixb selector text = false -> annotate selector annotation text = text.
Proof. intros H. unfold annotate, replace. now apply replace_from_absent. Qed.

Lemma annotate_absent_witness :
  infixb (lit "0xa9059cbb") (lit "CALL 0xabcdabcd") = false
  /\ annotate (lit "0xa9059cbb") (lit "$&") (lit "CALL 0xabcdabcd")
     = lit "CALL 0xabcdabcd".
Proof.
  assert (H : infixb (lit "0xa9059cbb") (lit "CALL 0xabcdabcd") = false)
    by (vm_compute; reflexivity).
  split; [exact H|].
  exact (annotate_absent (lit "0xa9059cbb") (lit "$&") (lit "CALL 0xabcdabcd") H).
Defined.

Lemma exec_all_skip (pat : pattern) : forall k s pos,
  exec_all pat k pos s = exec_all pat 0 (pos + k) (skipn k s).
Proof.
  induction k as [|k IH]; intros s pos.
  - now rewrite Nat.add_0_r.
  - destruct s as [|c r]; [reflexivity|].
    cbn [exec_all skipn]. rewrite IH. f_equal. lia.
Qed.

Lemma exec_all_length (pat : pattern) : forall s skip pos pos',
  length (exec_all pat skip pos s) = length (exec_all pat skip pos' s).
Proof.
  induction s as [|c r IH]; intros skip pos pos'; [reflexivity|].
  cbn [exec_all]. destruct skip as [|k]; [|apply IH].
  destruct (pat (c :: r)); cbn [length]; [f_equal|]; apply IH.
Qed.

(** Where nothing matches, nothing is replaced. *)
Lemma replace_from_no_match (pat : pattern) (templ str : jsstring) :
  forall s pos,
    exec_all pat 0 pos s = [] -> replace_from pat templ str 0 pos s = s.
Proof.
  induction s as [|c r IH]; intros pos H; [reflexivity|].
  cbn [exec_all] in H. cbn [replace_from].
  destruct (pat (c :: r)); [discriminate|]. f_equal. now apply IH.
Qed.

Section Occurrences.

Variable sel : jsstring.
Hypothesis sel_valid : valid_selector sel = true.

Lemma occurrences_hit (rest : jsstring) :
  no_hex_ahead rest = true ->
  occurrences sel (sel ++ rest) = S (occurrences sel rest).
Proof.
  intros H. pose proof (occurrence_hit sel sel_valid rest H) as Hp.
  destruct (sel_shape sel sel_valid) as (h & E & Hl & _).
  assert (Hs : sel ++ rest = 48%N :: 120%N :: h ++ rest) by now rewrite E.
  unfold occurrences, matchAll. rewrite Hs in *. cbn [exec_all].
  rewrite Hp. cbn [length pred]. f_equal.
  rewrite exec_all_skip.
  change (skipn 9 (120%N :: h ++ rest)) with (skipn 8 (h ++ rest)).
  rewrite skipn_app, Hl, skipn_all2 by lia. cbn [Nat.sub skipn app].
  apply exec_all_length.
Qed.

Lemma occurrences_miss (c : code_unit) (r : jsstring) :
  selectorOccurrence sel (c :: r) = None ->
  occurrences sel (c :: r) = occurrences sel r.
Proof.
  intros H. unfold occurrences, matchAll. cbn [exec_all]. rewrite H.
  apply exec_all_length.
Qed.

Variable ann : jsstring.
Hypothesis ann_plain : plain ann.

Lemma annotate_grows (text : jsstring) :
  length (annotate sel ann text)
  = length text + occurrences sel text * (length ann + 3).
Proof.
  assert (G : forall n s, length s <= n ->
                length (annotate sel ann s)
                = length s + occurrences sel s * (length ann + 3));
    [|now apply (G (length text))].
  induction n as [|n IH]; intros s Hs.
  - destruct s; [reflexivity|simpl in Hs; lia].
  - destruct s as [|c r]; [reflexivity|].
    destruct (selectorOccurrence sel (c :: r)) as [m|] eqn:E.
    + apply (occurrence_Some sel sel_valid) in E.
      destruct E as (_ & rest & Es & Hh). rewrite Es in *.
      rewrite (annotate_hit sel sel_valid ann ann_plain rest Hh).
      rewrite (occurrences_hit rest Hh).
      rewrite !length_app, IH.
      * change (length (lit " [")) with 2. change (length (lit "]")) with 1.
        lia.
      * rewrite length_app, (sel_length sel sel_valid) in Hs. lia.
    + rewrite (annotate_miss sel sel_valid ann ann_plain c r E).
      rewrite (occurrences_miss c r E). cbn [length].
      rewrite IH by (simpl in Hs; lia). lia.
Qed.

(** For an annotation without dollar sign the annotator is the global
    substitution: an occurrence of the selector with no hex digit behind it
    becomes the selector and the annotation in brackets, the search goes on
    behind the occurrence, and everything else is kept. *)
Theorem annotate_global_substitution :
  annotate sel ann [] = []
  /\ (forall rest,
        no_hex_ahead rest = true ->
        annotate sel ann (sel ++ rest)
        = sel ++ lit " [" ++ ann ++ lit "]" ++ annotate sel ann rest)
  /\ (forall c r,
        prefixb sel (c :: r) = false
        \/ no_hex_ahead (skipn 10 (c :: r)) = false ->
        annotate sel ann (c :: r) = c :: annotate sel ann r).
Proof.
  split; [reflexivity|]. split.
  - intros rest H. now apply annotate_hit.
  - intros c r H. apply (annotate_miss sel sel_valid ann ann_plain).
    unfold selectorOccurrence. rewrite (sel_length sel sel_valid).
    destruct H as [-> | ->]; [reflexivity|now rewrite andb_false_r].
Qed.

End Occurrences.

(** Every occurrence that the annotator finds makes the text longer by the
    annotation and its three characters of bracket and space. *)
Theorem annotate_length (sel : jsstring) (sel_valid : valid_selector sel = true)
    (ann : jsstring) (ann_plain : plain ann) (text : jsstring) :
  length (annotate sel ann text)
  = length text + occurrences sel text * (length ann + 3).
Proof.
  exact (annotate_grows sel sel_valid ann ann_plain text).
Qed.

(** Annotating an annotated text again is annotating the text once with
    the annotation written twice; so it changes nothing exactly for the
    texts in which the selector has no occurrence. *)
Theorem annotate_idempotent_iff (sel ann text : jsstring) :
  valid_selector sel = true -> plain ann -> infixb (lit "0x") ann = false ->
  annotate sel ann (annotate sel ann text)
  = annotate sel (ann ++ lit "] [" ++ ann) text
  /\ (annotate sel ann (annotate sel ann text) = annotate sel ann text
      <-> occurrences sel text = 0).
Proof.
  intros Hs Hp Hc. split; [exact (annotate_twice sel ann Hs Hp Hc text)|].
  split.
  - intros H. rewrite (annotate_twice sel ann Hs Hp Hc) in H.
    apply (f_equal (@length _)) in H.
    rewrite (annotate_grows sel Hs _ (twice_plain ann Hp)) in H.
    rewrite (annotate_grows sel Hs _ Hp) in H.
    rewrite !length_app in H. change (length (lit "] [")) with 3 in H.
    destruct (occurrences sel text); [reflexivity|]. simpl in H. lia.
  - intros H. apply length_zero_iff_nil in H.
    assert (E : annotate sel ann text = text)
      by (unfold annotate, replace; now apply replace_from_no_match).
    now rewrite !E.
Qed.

Lemma annotate_idempotent_iff_witness :
  annotate (lit "0xabcdabcd") (lit "f()")
    (annotate (lit "0xabcdabcd") (lit "f()") (lit "CALL 0xabcdabcd"))
  = annotate (lit "0xabcdabcd") (lit "f()" ++ lit "] [" ++ lit "f()")
      (lit "CALL 0xabcdabcd")
  /\ (annotate (lit "0xabcdabcd") (lit "f()")
        (annotate (lit "0xabcdabcd") (lit "f()") (lit "CALL 0xabcdabcd"))
      = annotate (lit "0xabcdabcd") (lit "f()") (lit "CALL 0xabcdabcd")
      <-> occurrences (lit "0xabcdabcd") (lit "CALL 0xabcdabcd") = 0).
Proof.
  apply (annotate_idempotent_iff (lit "0xabcdabcd") (lit "f()")
           (lit "CALL 0xabcdabcd")); vm_compute; reflexivity.
Defined.

Lemma annotate_length_witness :
  length (annotate (lit "0xabcdabcd") (lit "f()")
            (lit "0xabcdabcd, 0xabcdabcd"))
  = length (lit "0xabcdabcd, 0xabcdabcd")
    + occurrences (lit "0xabcdabcd") (lit "0xabcdabcd, 0xabcdabcd")
      * (length (lit "f()") + 3).
Proof.
  apply (annotate_length (lit "0xabcdabcd")); vm_compute; reflexivity.
Defined.

Lemma annotate_global_substitution_witness :
  annotate (lit "0xabcdabcd") (lit "f()") [] = []
  /\ (forall rest,
        no_hex_ahead rest = true ->
        annotate (lit "0xabcdabcd") (lit "f()") (lit "0xabcdabcd" ++ rest)
        = lit "0xabcdabcd" ++ lit " [" ++ lit "f()" ++ lit "]"
          ++ annotate (lit "0xabcdabcd") (lit "f()") rest)
  /\ (forall c r,
        prefixb (lit "0xabcdabcd") (c :: r) = false
        \/ no_hex_ahead (skipn 10 (c :: r)) = false ->
        annotate (lit "0xabcdabcd") (lit "f()") (c :: r)
        = c :: annotate (lit "0xabcdabcd") (lit "f()") r).
Proof.
  apply (annotate_global_substitution (lit "0xabcdabcd")); vm_compute;
    reflexivity.
Defined.

(* ===================================================================== *)
(** * Trimming                                                            *)
(* ===================================================================== *)

Lemma trimStart_head (s : jsstring) : no_space_head (trimStart s).
Proof.
  induction s as [|c r IH]; cbn [trimStart]; [exact I|].
  destruct (is_space c) eqn:E; [exact IH|exact E].
Qed.

Lemma trimStart_fixed (s : jsstring) : no_space_head s -> trimStart s = s.
Proof. destruct s as [|c r]; cbn; [reflexivity|]. now intros ->. Qed.

Lemma trimStart_snoc (c : code_unit) : is_space c = false ->
  forall l, exists l', trimStart (l ++ [c]) = l' ++ [c].
Proof.
  intros H. induction l as [|a l IH]; cbn [app trimStart].
  - rewrite H. now exists [].
  - destruct (is_space a); [exact IH|]. now exists (a :: l).
Qed.

Lemma trimEnd_cons (c : code_unit) (l : jsstring) :
  is_space c = false -> exists t, trimEnd (c :: l) = c :: t.
Proof.
  intros H. unfold trimEnd. cbn [rev].
  destruct (trimStart_snoc c H (rev l)) as [l' ->].
  rewrite rev_app_distr. now exists (rev l').
Qed.

Lemma trimEnd_head (s : jsstring) : no_space_head s -> no_space_head (trimEnd s).
Proof.
  destruct s as [|c r]; [intros _; exact I|]. intros H.
  destruct (trimEnd_cons c r H) as [t ->]. exact H.
Qed.

Lemma trimEnd_idempotent (s : jsstring) : trimEnd (trimEnd s) = trimEnd s.
Proof.
  unfold trimEnd. rewrite rev_involutive.
  now rewrite (trimStart_fixed _ (trimStart_head (rev s))).
Qed.

Lemma trim_head (s : jsstring) : no_space_head (trim s).
Proof. unfold trim. apply trimEnd_head, trimStart_head. Qed.

Lemma trim_idempotent (s : jsstring) : trim (trim s) = trim s.
Proof.
  unfold trim.
  rewrite (trimStart_fixed _ (trimEnd_head _ (trimStart_head s))).
  apply trimEnd_idempotent.
Qed.

Lemma trim_cons (c : code_unit) (l : jsstring) :
  is_space c = false -> exists t, trim (c :: l) = c :: t.
Proof.
  intros H. unfold trim. rewrite (trimStart_fixed (c :: l) H).
  now apply trimEnd_cons.
Qed.

Lemma split_nonempty (sep : code_unit) (s : jsstring) : split sep s <> [].
Proof.
  destruct s as [|c r]; cbn [split]; [discriminate|].
  destruct (N.eqb c sep); [discriminate|].
  destruct (split sep r); discriminate.
Qed.

Lemma split_cons (sep c : code_unit) (r : jsstring) :
  c <> sep -> exists l ls, split sep (c :: r) = (c :: l) :: ls.
Proof.
  intros H. cbn [split]. apply N.eqb_neq in H. rewrite H.
  destruct (split sep r) as [|l ls]; eauto.
Qed.

Lemma signatures_of_head (result : CommandResult) (h : jsstring)
    (t : list jsstring) :
  signatures_of result = h :: t -> h <> [].
Proof.
  unfold signatures_of.
  destruct (success result); cbn [andb]; [|discriminate].
  pose proof (trim_head (message result)) as Hh.
  destruct (trim (message result)) as [|c r] eqn:E; cbn [truthy];
    [discriminate|].
  cbn in Hh. intros H.
  destruct (split_cons 10%N c r) as (l & ls & Hs).
  { intros ->. discriminate. }
  rewrite Hs in H. cbn [map] in H. injection H as <- _.
  destruct (trim_cons c l Hh) as [u ->]. discriminate.
Qed.

(** The candidates read off the output of a lookup are trimmed; there are
    none exactly when the lookup failed or printed white space only; and
    the first of them is never empty. *)
Theorem signatures_of_shape (result : CommandResult) :
  Forall (fun s => trim s = s) (signatures_of result)
  /\ (signatures_of result = []
      <-> success result = false \/ trim (message result) = [])
  /\ (forall h t, signatures_of result = h :: t -> h <> []).
Proof.
  split; [|split; [|intros h t; apply signatures_of_head]].
  - unfold signatures_of.
    destruct (success result && truthy (trim (message result)));
      [|constructor].
    rewrite Forall_forall. intros s Hs. apply in_map_iff in Hs.
    destruct Hs as (x & <- & _). apply trim_idempotent.
  - unfold signatures_of.
    destruct (success result); cbn [andb]; [|split; auto].
    destruct (trim (message result)) as [|c r] eqn:E; cbn [truthy].
    + split; auto.
    + split.
      * intros H. apply map_eq_nil in H. now apply split_nonempty in H.
      * intros [H|H]; discriminate.
Qed.

(* ===================================================================== *)
(** * The table of resolved selectors                                     *)
(* ===================================================================== *)

Lemma map_set_new {V} (k : jsstring) (v : V) (m : list (jsstring * V)) :
  ~ In k (map fst m) -> map_set k v m = m ++ [(k, v)].
Proof.
  induction m as [|[k' v'] m IH]; intros H; cbn [map_set app]; [reflexivity|].
  cbn in H. destruct (str_eqb k' k) eqn:E.
  - apply str_eqb_eq in E. tauto.
  - f_equal. apply IH. tauto.
Qed.

Lemma map_set_Forall {V} (P : jsstring * V -> Prop) (k : jsstring) (v : V)
    (m : list (jsstring * V)) :
  P (k, v) -> Forall P m -> Forall P (map_set k v m).
Proof.
  intros Hp. induction m as [|[k' v'] m IH]; intros Hf; cbn [map_set].
  - constructor; [exact Hp|constructor].
  - apply Forall_cons_iff in Hf. destruct Hf as [Hkv Hf].
    destruct (str_eqb k' k) eqn:E.
    + apply str_eqb_eq in E. subst k'. now constructor.
    + constructor; [exact Hkv|now apply IH].
Qed.

Lemma map_get_In {V} (k : jsstring) (m : list (jsstring * V)) :
  In k (map fst m) -> exists v, map_get k m = Some v.
Proof.
  induction m as [|[k' v'] m IH]; cbn; [tauto|].
  intros [->|H]; [rewrite str_eqb_refl; eauto|].
  destruct (str_eqb k' k); eauto.
Qed.

(** What holds before a loop and is kept by every turn that returns holds
    when the loop returns. *)
Lemma for_of_invariant {A S} (body : S -> A -> Async S)
    (I : list A -> S -> Prop) :
  (forall done s x s',
     I done s -> outcome (body s x) = Returned s' -> I (done ++ [x]) s') ->
  forall xs done s s',
    I done s -> outcome (for_of xs body s) = Returned s' -> I (done ++ xs) s'.
Proof.
  intros Step. induction xs as [|x xs IH]; intros done s s' Hi H.
  - cbn in H. injection H as <-. now rewrite app_nil_r.
  - cbn [for_of] in H. rewrite outcome_bind in H.
    destruct (outcome (body s x)) as [s1|e] eqn:E; [|discriminate].
    replace (done ++ x :: xs) with ((done ++ [x]) ++ xs)
      by now rewrite <- app_assoc.
    eapply IH; [|exact H]. eapply Step; eauto.
Qed.

Lemma flat_map_filter {A} (f : A -> bool) (l : list A) :
  flat_map (fun x => if f x then [x] else []) l = filter f l.
Proof.
  induction l as [|x l IH]; cbn; [reflexivity|].
  destruct (f x); cbn; now rewrite IH.
Qed.

Lemma line_verdict_exact (w : World) (selector signature : jsstring) :
  line_verdict w selector false signature
  = if exact_match w selector signature then [signature] else [].
Proof.
  unfold line_verdict, match_signature, exact_match.
  now destruct (success _ && str_eqb _ _).
Qed.

Lemma exact_lines (w : World) (selector : jsstring) (l : list jsstring) :
  flat_map (line_verdict w selector false) l
  = filter (exact_match w selector) l.
Proof.
  rewrite <- flat_map_filter. apply flat_map_ext. intros s.
  apply line_verdict_exact.
Qed.

(** The local matches of a selector are non-empty lines. *)
Lemma local_lookup_truthy (w : World) (signatureFile : option jsstring)
    (selector : jsstring) (localSignatures : list jsstring) :
  outcome (local_lookup w signatureFile selector) = Returned localSignatures ->
  Forall (fun s => s <> []) localSignatures.
Proof.
  unfold local_lookup, access, readFile.
  destruct signatureFile as [path|];
    [|intros H; injection H as <-; constructor].
  destruct (truthy path); [|intros H; injection H as <-; constructor].
  cbn [bind]. destruct (fs_access w path);
    [|intros H; injection H as <-; constructor].
  destruct (fs_readFile w path) as [content|e]; [|discriminate].
  cbn [bind]. rewrite match_trace_loop. cbn. intros H. injection H as <-.
  rewrite exact_lines, trace_file_signatures_candidates.
  rewrite Forall_forall. intros s Hs. apply filter_In in Hs.
  destruct Hs as [Hs _]. unfold candidate_lines in Hs.
  apply filter_In in Hs. destruct Hs as [_ Hs].
  apply candidateb_spec in Hs. apply Hs.
Qed.

Lemma resolve_selector_returned (w : World) (signatureFile : option jsstring)
    (m m' : list (jsstring * Entry)) (selector : jsstring) :
  outcome (resolve_selector w signatureFile m selector) = Returned m' ->
  exists localSignatures,
    outcome (local_lookup w signatureFile selector) = Returned localSignatures
    /\ m' = map_set selector
              {| online := signatures_of
                             (command_result w
                                (castPath w ++ lit " 4byte " ++ selector));
                 local := localSignatures |} m.
Proof.
  unfold resolve_selector, executeCommand. cbn [bind].
  destruct (local_lookup w signatureFile selector) as [[L|e] l];
    cbn; intros H; [|discriminate].
  injection H as <-. now exists L.
Qed.

Lemma head_truthy_None (l : list jsstring) :
  (forall h t, l = h :: t -> h <> []) -> head_truthy l = None <-> l = [].
Proof.
  intros H. destruct l as [|h t]; cbn; [tauto|].
  specialize (H h t eq_refl). destruct h; [congruence|].
  cbn. split; discriminate.
Qed.

(** When the loop of lines 791-821 returns, the table holds one entry for
    each extracted selector, in the order of extraction, so that the report
    finds every selector in it; and an entry has no best match for the
    simplified trace exactly when both its lists are empty, that is when
    the report says that no matches were found. *)
Theorem resolved_table (w : World) (signatureFile : option jsstring)
    (text : jsstring) (selectorMap : list (jsstring * Entry)) :
  outcome (for_of (extract_selectors text)
             (resolve_selector w signatureFile) [])
  = Returned selectorMap ->
  map fst selectorMap = extract_selectors text
  /\ (forall selector, In selector (extract_selectors text) ->
        exists e, map_get selector selectorMap = Some e)
  /\ Forall (fun kv => bestMatch (snd kv) = None
                       <-> local (snd kv) = [] /\ online (snd kv) = [])
       selectorMap.
Proof.
  intros H.
  pose (I := fun (done : list jsstring) (m : list (jsstring * Entry)) =>
               (NoDup done -> map fst m = done)
               /\ Forall (fun kv => bestMatch (snd kv) = None
                                    <-> local (snd kv) = []
                                        /\ online (snd kv) = []) m).
  assert (Hi : I ([] ++ extract_selectors text) selectorMap).
  { apply (for_of_invariant (resolve_selector w signatureFile) I)
      with (s := []); [|split; [reflexivity|constructor]|exact H].
    intros done m x m' [Hk Hf] Hb.
    apply resolve_selector_returned in Hb. destruct Hb as (L & HL & ->).
    split.
    - intros Hn. apply NoDup_remove in Hn. rewrite app_nil_r in Hn.
      destruct Hn as [Hn Hx]. specialize (Hk Hn).
      rewrite map_set_new by now rewrite Hk.
      now rewrite map_app, Hk.
    - assert (He : bestMatch
                     {| online := signatures_of
                                    (command_result w
                                       (castPath w ++ lit " 4byte " ++ x));
                        local := L |} = None
                   <-> L = []
                       /\ signatures_of
                            (command_result w
                               (castPath w ++ lit " 4byte " ++ x)) = []).
      { unfold bestMatch. cbn [local online].
        apply local_lookup_truthy in HL.
        pose proof (signatures_of_head
                      (command_result w (castPath w ++ lit " 4byte " ++ x)))
          as Ho.
        destruct L as [|h t].
        - cbn [head_truthy]. rewrite head_truthy_None by exact Ho. tauto.
        - apply Forall_inv in HL. destruct h; [congruence|].
          cbn. split; [discriminate|]. intros [? _]. discriminate. }
      apply map_set_Forall; [exact He|exact Hf]. }
  destruct Hi as [Hk Hf]. cbn [app] in Hk.
  assert (Hn : NoDup (extract_selectors text)).
  { unfold extract_selectors. rewrite Set_of_first_appearances.
    apply first_appearances_NoDup. }
  specialize (Hk Hn). split; [exact Hk|]. split; [|exact Hf].
  intros selector Hs. apply map_get_In. now rewrite Hk.
Qed.

Lemma resolved_table_witness :
  map fst (fold_left (remote_only world_both)
             (extract_selectors (lit "CALL 0xa9059cbb")) [])
  = extract_selectors (lit "CALL 0xa9059cbb").
Proof.
  refine (proj1 (resolved_table world_both None (lit "CALL 0xa9059cbb") _ _)).
  vm_compute. reflexivity.
Defined.

(* ===================================================================== *)
(** * processFunctionSelectors and cast_trace as a whole                  *)
(* ===================================================================== *)

Lemma remote_lookup_closed (w : World) (rpcUrl : jsstring)
    (m : list (jsstring * list jsstring)) (selector : jsstring) :
  remote_lookup w rpcUrl m selector
  = (Returned (if answered w rpcUrl selector
               then map_set selector (remote_answer w rpcUrl selector) m
               else m),
     [lookup_call w rpcUrl selector]).
Proof.
  unfold remote_lookup, executeCommand, answered, remote_answer, signatures_of,
    lookup_call. cbn [bind].
  destruct (success _ && truthy _); [|reflexivity].
  rewrite length_map.
  destruct (split 10%N _) as [|l ls] eqn:E;
    [now apply split_nonempty in E|reflexivity].
Qed.

Lemma remote_lookup_table (w : World) (rpcUrl : jsstring) :
  forall selectors m,
    NoDup selectors ->
    (forall s, In s selectors -> ~ In s (map fst m)) ->
    for_of selectors (remote_lookup w rpcUrl) m
    = (Returned (m ++ map (fun sel => (sel, remote_answer w rpcUrl sel))
                        (filter (answered w rpcUrl) selectors)),
       map (lookup_call w rpcUrl) selectors).
Proof.
  induction selectors as [|x r IH]; intros m Hn Hd; cbn [for_of map filter].
  - unfold ret. now rewrite app_nil_r.
  - rewrite remote_lookup_closed, bind_returned.
    apply NoDup_cons_iff in Hn. destruct Hn as [Hx Hn].
    destruct (answered w rpcUrl x).
    + rewrite map_set_new by (apply Hd; now left).
      rewrite IH; [cbn; now rewrite <- app_assoc|exact Hn|].
      intros s Hs. rewrite map_app, in_app_iff. cbn.
      intros [H|[->|[]]]; [|tauto]. apply (Hd s); [now right|exact H].
    + rewrite IH; [reflexivity|exact Hn|].
      intros s Hs. apply Hd. now right.
Qed.

Lemma fold_annotate_likely (w : World) (rpcUrl : jsstring) :
  forall l out,
    Forall (fun sel => answered w rpcUrl sel = true) l ->
    fold_left annotate_likely
      (map (fun sel => (sel, remote_answer w rpcUrl sel)) l) out
    = fold_left
        (fun out sel =>
           annotate sel
             (lit "Likely: " ++ signaturesDisplay (remote_answer w rpcUrl sel))
             out)
        l out.
Proof.
  induction l as [|x l IH]; intros out H; [reflexivity|].
  apply Forall_cons_iff in H. destruct H as [Hx H].
  cbn [map fold_left]. unfold annotate_likely at 2.
  unfold answered in Hx. rewrite Hx. now apply IH.
Qed.

Lemma processFunctionSelectors_fold (w : World)
    (traceOutput rpcUrl : jsstring) :
  processFunctionSelectors w traceOutput rpcUrl
  = (Returned
       (fold_left
          (fun out sel =>
             annotate sel
               (lit "Likely: "
                ++ signaturesDisplay (remote_answer w rpcUrl sel))
               out)
          (filter (answered w rpcUrl) (extract_selectors traceOutput))
          traceOutput),
     map (lookup_call w rpcUrl) (extract_selectors traceOutput)).
Proof.
  unfold processFunctionSelectors.
  assert (Hn : NoDup (extract_selectors traceOutput)).
  { unfold extract_selectors. rewrite Set_of_first_appearances.
    apply first_appearances_NoDup. }
  destruct (extract_selectors traceOutput) as [|x r] eqn:E; [reflexivity|].
  cbn [length Nat.eqb].
  rewrite remote_lookup_table by (auto; intros s _ []).
  rewrite bind_returned. unfold ret. cbn [outcome effects fst snd app].
  rewrite app_nil_r, fold_annotate_likely; [reflexivity|].
  rewrite Forall_forall. intros s Hs. now apply filter_In in Hs.
Qed.

(** [processFunctionSelectors] as a whole: it looks up every extracted
    selector once, in the order of extraction, and returns the trace
    annotated, in that order, for the selectors to which the directory gave
    an answer, each with its own candidates.  It never rejects. *)
Theorem processFunctionSelectors_closed (w : World)
    (traceOutput rpcUrl : jsstring) :
  processFunctionSelectors w traceOutput rpcUrl
  = (Returned
       (fold_left
          (fun out sel =>
             annotate sel
               (lit "Likely: "
                ++ signaturesDisplay (remote_answer w rpcUrl sel))
               out)
          (filter (answered w rpcUrl) (extract_selectors traceOutput))
          traceOutput),
     map (lookup_call w rpcUrl) (extract_selectors traceOutput)).
Proof.
  exact (processFunctionSelectors_fold w traceOutput rpcUrl).
Qed.

(* ===================================================================== *)
(** * resolveRpcUrl                                                       *)
(* ===================================================================== *)

Lemma resolveRpcUrl_src_returns (cfg : RpcConfig) (w : World)
    (rpcUrl : option jsstring) :
  exists endpoint,
    outcome (resolveRpcUrl_src cfg w rpcUrl) = Returned endpoint.
Proof.
  destruct rpcUrl as [url|]; [|now eexists]. unfold resolveRpcUrl_src.
  destruct (truthy url); cbn [negb]; [|now eexists].
  destruct (prefixb (lit "http") url); cbn [negb]; [now eexists|].
  unfold try_catch, access, readFile. cbn [bind].
  destruct (fs_access w (configPath cfg)); [|now eexists].
  destruct (fs_readFile w (configPath cfg)) as [content|e]; [|now eexists].
  cbn [bind].
  destruct (rpc_endpoint cfg url content) as [e|]; [|now eexists].
  destruct (truthy e); now eexists.
Qed.

Lemma trimStart_spaces (ws : jsstring) (c : code_unit) (r : jsstring) :
  forallb is_space ws = true -> is_space c = false ->
  trimStart (ws ++ c :: r) = c :: r.
Proof.
  intros Hw Hc. induction ws as [|a ws IH]; cbn [app trimStart].
  - now rewrite Hc.
  - cbn [forallb] in Hw. apply andb_true_iff in Hw. destruct Hw as [Ha Hw].
    rewrite Ha. now apply IH.
Qed.

Lemma trimStart_split (s : jsstring) :
  exists ws, s = ws ++ trimStart s /\ forallb is_space ws = true.
Proof.
  induction s as [|a s IH]; cbn [trimStart]; [now exists []|].
  destruct (is_space a) eqn:E; [|now exists []].
  destruct IH as (ws & Hs & Hw). exists (a :: ws). cbn [app forallb].
  rewrite E, Hw. split; [now f_equal|reflexivity].
Qed.

Lemma until_quote_app (v : jsstring) (q : code_unit) (post : jsstring) :
  forallb (fun c => negb (is_quote c)) v = true -> is_quote q = true ->
  until_quote (v ++ q :: post) = v.
Proof.
  intros Hv Hq. induction v as [|a v IH]; cbn [app until_quote].
  - now rewrite Hq.
  - cbn [forallb] in Hv. apply andb_true_iff in Hv. destruct Hv as [Ha Hv].
    apply negb_true_iff in Ha. rewrite Ha. f_equal. now apply IH.
Qed.

Lemma until_quote_split (s : jsstring) :
  forallb (fun c => negb (is_quote c)) (until_quote s) = true
  /\ (length (until_quote s) < length s ->
      exists q post, s = until_quote s ++ q :: post /\ is_quote q = true).
Proof.
  induction s as [|a s [IH1 IH2]]; cbn [until_quote].
  - split; [reflexivity|]. cbn. lia.
  - destruct (is_quote a) eqn:E.
    + split; [reflexivity|]. intros _. now exists a, s.
    + cbn [forallb length]. rewrite E, IH1. split; [reflexivity|].
      intros H. destruct IH2 as (q & post & Hs & Hq); [lia|].
      exists q, post. cbn [app]. split; [now f_equal|exact Hq].
Qed.

Lemma is_quote_no_space (q : code_unit) : is_quote q = true -> is_space q = false.
Proof.
  unfold is_quote. intros H. apply orb_true_iff in H.
  destruct H as [H|H]; apply N.eqb_eq in H; subst q; reflexivity.
Qed.

Lemma skipn_length_app {A} (l r : list A) : skipn (length l) (l ++ r) = r.
Proof. induction l as [|a l IH]; [reflexivity|exact IH]. Qed.

Lemma endpoint_at_complete (name ws1 ws2 v post : jsstring)
    (q1 q2 : code_unit) :
  forallb is_space ws1 = true -> forallb is_space ws2 = true ->
  is_quote q1 = true -> is_quote q2 = true -> v <> [] ->
  forallb (fun c => negb (is_quote c)) v = true ->
  endpoint_at name (name ++ ws1 ++ [61%N] ++ ws2 ++ [q1] ++ v ++ [q2] ++ post)
  = Some v.
Proof.
  intros H1 H2 Hq1 Hq2 Hn Hv. unfold endpoint_at.
  rewrite prefixb_app, skipn_length_app. cbn [app].
  rewrite (trimStart_spaces ws1 61%N _ H1 eq_refl). cbn [N.eqb Pos.eqb].
  rewrite (trimStart_spaces ws2 q1 _ H2 (is_quote_no_space q1 Hq1)).
  rewrite Hq1. cbv zeta. rewrite (until_quote_app v q2 post Hv Hq2).
  destruct v as [|c v]; [congruence|]. cbn [truthy andb].
  assert (L : (length (c :: v) <? length ((c :: v) ++ q2 :: post)) = true).
  { apply Nat.ltb_lt. rewrite length_app. cbn [length]. lia. }
  now rewrite L.
Qed.

Lemma endpoint_at_sound (name s v : jsstring) :
  endpoint_at name s = Some v ->
  exists ws1 ws2 q1 q2 post,
    s = name ++ ws1 ++ [61%N] ++ ws2 ++ [q1] ++ v ++ [q2] ++ post
    /\ forallb is_space ws1 = true /\ forallb is_space ws2 = true
    /\ is_quote q1 = true /\ is_quote q2 = true /\ v <> []
    /\ forallb (fun c => negb (is_quote c)) v = true.
Proof.
  unfold endpoint_at. destruct (prefixb name s) eqn:Hp; [|discriminate].
  apply prefixb_firstn in Hp.
  destruct (trimStart_split (skipn (length name) s)) as (ws1 & E1 & H1).
  destruct (trimStart (skipn (length name) s)) as [|c s2]; [discriminate|].
  destruct (N.eqb_spec c 61) as [->|]; [|discriminate].
  destruct (trimStart_split s2) as (ws2 & E2 & H2).
  destruct (trimStart s2) as [|q1 s3]; [discriminate|].
  destruct (is_quote q1) eqn:Hq1; [|discriminate]. cbv zeta.
  destruct (until_quote_split s3) as [Hv Hs].
  destruct (truthy (until_quote s3)) eqn:Ht; [|discriminate].
  destruct (length (until_quote s3) <? length s3) eqn:Hl; [|discriminate].
  cbn [andb]. intros Q. injection Q as Q.
  apply Nat.ltb_lt in Hl. destruct (Hs Hl) as (q2 & post & E3 & Hq2).
  rewrite Q in *. exists ws1, ws2, q1, q2, post.
  split; [|repeat split; try assumption; now destruct v].
  rewrite <- (firstn_skipn (length name) s) at 1. rewrite Hp, E1, E2.
  cbn [app]. now rewrite E3 at 1.
Qed.

Lemma endpoint_from_complete (name tail v : jsstring) :
  endpoint_at name tail = Some v ->
  forall mid, exists v', endpoint_from name (mid ++ tail) = Some v'.
Proof.
  intros H. induction mid as [|c mid IH]; cbn [app].
  - exists v. destruct tail; cbn [endpoint_from]; now rewrite H.
  - cbn [endpoint_from].
    destruct (endpoint_at name (c :: mid ++ tail)) as [u|]; [now exists u|].
    exact IH.
Qed.

Lemma endpoint_from_sound (name : jsstring) : forall s v,
  endpoint_from name s = Some v ->
  exists mid tail, s = mid ++ tail /\ endpoint_at name tail = Some v.
Proof.
  induction s as [|c s IH]; intros v; cbn [endpoint_from].
  - destruct (endpoint_at name []) as [u|] eqn:E; [|discriminate].
    intros Q. injection Q as <-. now exists [], [].
  - destruct (endpoint_at name (c :: s)) as [u|] eqn:E.
    + intros Q. injection Q as <-. now exists [], (c :: s).
    + intros H. destruct (IH v H) as (mid & tail & -> & Ht).
      now exists (c :: mid), tail.
Qed.

Lemma rpcMatch_complete (name rest v : jsstring) :
  endpoint_from name rest = Some v ->
  forall pre,
    exists v', rpcMatch name (pre ++ lit "[rpc_endpoints]" ++ rest) = Some v'.
Proof.
  intros H. induction pre as [|c pre IH].
  - exists v. cbn [app].
    change (lit "[rpc_endpoints]" ++ rest)
      with (91%N :: skipn 1 (lit "[rpc_endpoints]") ++ rest).
    cbn [rpcMatch].
    change (91%N :: skipn 1 (lit "[rpc_endpoints]") ++ rest)
      with (lit "[rpc_endpoints]" ++ rest).
    rewrite prefixb_app.
    change 15 with (length (lit "[rpc_endpoints]")).
    now rewrite skipn_length_app, H.
  - cbn [app rpcMatch].
    destruct (prefixb (lit "[rpc_endpoints]") (c :: pre ++ _)); [|exact IH].
    destruct (endpoint_from name (skipn 15 (c :: pre ++ _))) as [u|];
      [now exists u|exact IH].
Qed.

Lemma rpcMatch_sound (name : jsstring) : forall configContent v,
  rpcMatch name configContent = Some v ->
  exists pre rest,
    configContent = pre ++ lit "[rpc_endpoints]" ++ rest
    /\ endpoint_from name rest = Some v.
Proof.
  induction configContent as [|c s IH]; intros v; cbn [rpcMatch];
    [discriminate|].
  assert (Hr : rpcMatch name s = Some v ->
               exists pre rest,
                 c :: s = pre ++ lit "[rpc_endpoints]" ++ rest
                 /\ endpoint_from name rest = Some v).
  { intros H. destruct (IH v H) as (pre & rest & -> & Hf).
    now exists (c :: pre), rest. }
  destruct (prefixb (lit "[rpc_endpoints]") (c :: s)) eqn:Hp; [|exact Hr].
  destruct (endpoint_from name (skipn 15 (c :: s))) as [u|] eqn:E;
    [|exact Hr].
  intros Q. injection Q as <-. exists [], (skipn 15 (c :: s)).
  split; [|exact E]. apply prefixb_firstn in Hp.
  change (length (lit "[rpc_endpoints]")) with 15 in Hp.
  rewrite <- Hp. cbn [app]. now rewrite firstn_skipn.
Qed.

Lemma rpcMatch_holds (name configContent : jsstring) :
  (forall v, rpcMatch name configContent = Some v ->
             holds_endpoint name v configContent)
  /\ ((exists v, holds_endpoint name v configContent) ->
      exists v, rpcMatch name configContent = Some v).
Proof.
  split.
  - intros v H. apply rpcMatch_sound in H.
    destruct H as (pre & rest & -> & H). apply endpoint_from_sound in H.
    destruct H as (mid & tail & -> & H). apply endpoint_at_sound in H.
    destruct H as (ws1 & ws2 & q1 & q2 & post & -> & H).
    now exists pre, mid, ws1, ws2, q1, q2, post.
  - intros (v & pre & mid & ws1 & ws2 & q1 & q2 & post & -> & H1 & H2 & Hq1
            & Hq2 & Hn & Hv).
    pose proof (endpoint_at_complete name ws1 ws2 v post q1 q2 H1 H2 Hq1 Hq2
                  Hn Hv) as Ha.
    destruct (endpoint_from_complete _ _ _ Ha mid) as [u Hu].
    exact (rpcMatch_complete _ _ _ Hu pre).
Qed.

Lemma rpcMatch_truthy (name configContent v : jsstring) :
  rpcMatch name configContent = Some v -> truthy v = true.
Proof.
  intros H. apply rpcMatch_holds in H.
  destruct H as (pre & mid & ws1 & ws2 & q1 & q2 & post & _ & _ & _ & _ & _
                 & Hn & _).
  now destruct v.
Qed.


(** [resolveRpcUrl] never rejects: without an endpoint name it answers the
    default endpoint, and a name that starts with [http] is answered as it
    is, in both cases without touching the file system; any other name is
    looked up in the configuration file, and is answered as it is when the
    file is missing or cannot be read, and as the expression of line 17
    decides otherwise.  For a name of letters, digits, [_] and [-] the
    expression finds a value exactly when the file holds, somewhere behind
    the header, the name followed by [=] and a quoted value, be the name a
    key of the file or the end of one; the answer is then such a value, and
    the name itself when the file holds no such text. *)
Theorem resolveRpcUrl_src_cases (cfg : RpcConfig) (w : World) :
  (forall rpcUrl,
     exists endpoint,
       outcome (resolveRpcUrl_src cfg w rpcUrl) = Returned endpoint)
  /\ resolveRpcUrl_src cfg w None = (Returned (DEFAULT_RPC_URL cfg), [])
  /\ resolveRpcUrl_src cfg w (Some []) = (Returned (DEFAULT_RPC_URL cfg), [])
  /\ (forall url,
        url <> [] -> prefixb (lit "http") url = true ->
        resolveRpcUrl_src cfg w (Some url) = (Returned url, []))
  /\ (forall url,
        url <> [] -> prefixb (lit "http") url = false ->
        (fs_access w (configPath cfg) = false ->
         resolveRpcUrl_src cfg w (Some url)
         = (Returned url, [EAccess (configPath cfg)]))
        /\ (forall error,
              fs_access w (configPath cfg) = true ->
              fs_readFile w (configPath cfg) = inr error ->
              resolveRpcUrl_src cfg w (Some url)
              = (Returned url,
                 [EAccess (configPath cfg); EReadFile (configPath cfg)]))
        /\ (forall content,
              fs_access w (configPath cfg) = true ->
              fs_readFile w (configPath cfg) = inl content ->
              resolveRpcUrl_src cfg w (Some url)
              = (Returned
                   match rpc_endpoint cfg url content with
                   | Some endpoint => if truthy endpoint then endpoint else url
                   | None => url
                   end,
                 [EAccess (configPath cfg); EReadFile (configPath cfg)])
              /\ (forallb is_word url = true ->
                  (forall v, holds_endpoint url v content ->
                     exists v',
                       holds_endpoint url v' content
                       /\ outcome (resolveRpcUrl_src cfg w (Some url))
                          = Returned v')
                  /\ ((forall v, ~ holds_endpoint url v content) ->
                      outcome (resolveRpcUrl_src cfg w (Some url))
                      = Returned url)))).
Proof.
  split; [|split; [reflexivity|split; [reflexivity|split]]].
  - apply resolveRpcUrl_src_returns.
  - intros url Hu Hp. unfold resolveRpcUrl_src.
    destruct url as [|c u]; [congruence|]. cbn [truthy negb].
    now rewrite Hp.
  - intros url Hu Hp.
    assert (Hc : forall content,
               fs_access w (configPath cfg) = true ->
               fs_readFile w (configPath cfg) = inl content ->
               resolveRpcUrl_src cfg w (Some url)
               = (Returned
                    match rpc_endpoint cfg url content with
                    | Some endpoint =>
                        if truthy endpoint then endpoint else url
                    | None => url
                    end,
                  [EAccess (configPath cfg); EReadFile (configPath cfg)])).
    { intros content Ha Hr.
      unfold resolveRpcUrl_src, try_catch, access, readFile.
      destruct url as [|c u]; [congruence|]. cbn [truthy negb].
      rewrite Hp. cbn [negb bind]. rewrite Ha, Hr. cbn [bind].
      destruct (rpc_endpoint cfg (c :: u) content) as [e|]; [|reflexivity].
      now destruct (truthy e). }
    split; [|split].
    + intros Ha. unfold resolveRpcUrl_src, try_catch, access, readFile.
      destruct url as [|c u]; [congruence|]. cbn [truthy negb].
      rewrite Hp. cbn [negb bind]. now rewrite Ha.
    + intros error Ha Hr.
      unfold resolveRpcUrl_src, try_catch, access, readFile.
      destruct url as [|c u]; [congruence|]. cbn [truthy negb].
      rewrite Hp. cbn [negb bind]. now rewrite Ha, Hr.
    + intros content Ha Hr. split; [now apply Hc|].
      intros Hw. rewrite (Hc content Ha Hr). cbn [outcome fst].
      unfold rpc_endpoint. rewrite Hw.
      destruct (rpcMatch_holds url content) as [Hs Hcomp].
      split.
      * intros v Hv. destruct (Hcomp (ex_intro _ v Hv)) as [v' Hv'].
        exists v'. rewrite Hv', (rpcMatch_truthy _ _ _ Hv').
        split; [now apply Hs|reflexivity].
      * intros Hno. destruct (rpcMatch url content) as [v|] eqn:E;
          [|reflexivity].
        exfalso. apply (Hno v). now apply Hs.
Qed.

(** The name is not anchored: [net] is answered with the endpoint that the
    file gives to [mainnet]. *)
Example resolveRpcUrl_end_of_key :
  resolveRpcUrl_src sample_config world_config (Some (lit "net"))
  = (Returned (lit "https://eth.example.org"),
     [EAccess (lit "/home/user/.foundry/config.toml");
      EReadFile (lit "/home/user/.foundry/config.toml")])
  /\ resolveRpcUrl_src sample_config world_config (Some (lit "sepolia"))
     = (Returned (lit "sepolia"),
        [EAccess (lit "/home/user/.foundry/config.toml");
         EReadFile (lit "/home/user/.foundry/config.toml")]).
Proof. split; vm_compute; reflexivity. Qed.

(* ===================================================================== *)
(** * cast_trace                                                          *)
(* ===================================================================== *)

(** [cast_trace] as a whole, once the toolchain is found.  When the trace
    command fails the answer is an error and no lookup is made.  When it
    succeeds the answer is never an error: the trace is handed back as it
    is without signature matching, and as [processFunctionSelectors]
    annotates it otherwise, after one lookup for each extracted
    selector. *)
Theorem cast_trace_closed (cfg : RpcConfig) (w : World)
    (txHash rpcUrl : jsstring) (verbosity : Verbosity)
    (labels : list jsstring) (matchSignatures json : bool)
    (resolved : jsstring) (resolving : list Effect) :
  foundry_installed w = true ->
  resolveRpcUrl_src cfg w (Some rpcUrl) = (Returned resolved, resolving) ->
  let command :=
    cast_trace_command w txHash resolved verbosity labels json in
  let result := command_result w command in
  let calls :=
    EExec (forgePath w ++ lit " --version") :: resolving ++ [EExec command] in
  (success result = false ->
   cast_trace cfg w txHash rpcUrl verbosity labels matchSignatures json
   = (Returned {| text := lit "Failed to trace transaction: "
                          ++ message result;
                  isError := true |},
      calls))
  /\ (success result = true ->
      cast_trace cfg w txHash rpcUrl verbosity labels matchSignatures json
      = (Returned
           {| text :=
                lit "Transaction trace for " ++ txHash ++ lit ":" ++ nl ++ nl
                ++ (if matchSignatures
                    then fold_left
                           (fun out sel =>
                              annotate sel
                                (lit "Likely: "
                                 ++ signaturesDisplay
                                      (remote_answer w resolved sel))
                                out)
                           (filter (answered w resolved)
                              (extract_selectors (message result)))
                           (message result)
                    else message result);
              isError := false |},
         calls
         ++ (if matchSignatures
             then map (lookup_call w resolved)
                    (extract_selectors (message result))
             else []))).
Proof.
  intros Hi Hr command result calls.
  unfold cast_trace, checkFoundryInstalled, executeCommand.
  rewrite Hi, Hr. cbn [bind negb]. fold command. fold result.
  split; intros Hs; rewrite Hs; cbn [negb andb].
  - unfold ret, calls. now rewrite !app_nil_r.
  - destruct matchSignatures.
    + rewrite processFunctionSelectors_fold. unfold ret, calls. cbn.
      rewrite app_nil_r, <- !app_assoc. reflexivity.
    + unfold ret, calls. cbn. rewrite !app_nil_r. reflexivity.
Qed.

Lemma cast_trace_closed_witness :
  outcome (cast_trace sample_config world_trace (lit "0xdead")
             (lit "http://localhost:8545") verbosity_3 [] true false)
  = Returned
      {| text :=
           lit "Transaction trace for 0xdead:" ++ nl ++ nl
           ++ lit "CALL 0xa9059cbb [Likely: mint(uint256) or transfer(address,uint256)], CALL 0xa9059cbb [Likely: mint(uint256) or transfer(address,uint256)]";
         isError := false |}.
Proof.
  assert (Hi : foundry_installed world_trace = true)
    by (vm_compute; reflexivity).
  assert (Hr : resolveRpcUrl_src sample_config world_trace
                 (Some (lit "http://localhost:8545"))
               = (Returned (lit "http://localhost:8545"), []))
    by (vm_compute; reflexivity).
  rewrite (proj2 (cast_trace_closed sample_config world_trace (lit "0xdead")
                    (lit "http://localhost:8545") verbosity_3 [] true false
                    _ _ Hi Hr));
    vm_compute; reflexivity.
Defined.

(* ===================================================================== *)
(** * Guards and failures of the tools                                    *)
(* ===================================================================== *)

(** Without the toolchain every tool answers with the same error, and the
    check of the toolchain is the only call it makes. *)
Theorem not_installed_guard (cfg : RpcConfig) (w : World) :
  foundry_installed w = false ->
  let refusal :=
    (Returned {| text := FOUNDRY_NOT_INSTALLED_ERROR w; isError := true |},
     [EExec (forgePath w ++ lit " --version")]) in
  (forall selector filePath fuzzyMatch,
     cast_4byte_from_file w selector filePath fuzzyMatch = refusal)
  /\ (forall txHash rpcUrl signatureFile knownAddresses,
        analyze_transaction_trace w txHash rpcUrl signatureFile knownAddresses
        = refusal)
  /\ (forall txHash rpcUrl verbosity labels matchSignatures json,
        cast_trace cfg w txHash rpcUrl verbosity labels matchSignatures json
        = refusal)
  /\ (forall contractAddress functionSignature args rpcUrl blockNumber from,
        cast_call cfg w contractAddress functionSignature args rpcUrl
          blockNumber from
        = refusal).
Proof.
  intros H refusal. repeat split; intros;
    unfold cast_4byte_from_file, analyze_transaction_trace, cast_trace,
      cast_call, checkFoundryInstalled; now rewrite H.
Qed.

Lemma not_installed_guard_witness :
  foundry_installed world_bare = false
  /\ cast_4byte_from_file world_bare (lit "0xa9059cbb") (lit "sigs.txt") false
     = (Returned {| text := FOUNDRY_NOT_INSTALLED_ERROR world_bare;
                    isError := true |},
        [EExec (forgePath world_bare ++ lit " --version")]).
Proof.
  assert (H : foundry_installed world_bare = false)
    by (vm_compute; reflexivity).
  split; [exact H|].
  exact (proj1 (not_installed_guard sample_config world_bare H)
           (lit "0xa9059cbb") (lit "sigs.txt") false).
Defined.

(** A selector that is not [0x] and eight hex digits is refused by
    [cast_4byte_from_file] before the directory is asked and before the
    file is looked at. *)
Theorem cast_4byte_from_file_invalid (w : World)
    (selector filePath : jsstring) (fuzzyMatch : bool) :
  foundry_installed w = true -> valid_selector selector = false ->
  cast_4byte_from_file w selector filePath fuzzyMatch
  = (Returned
       {| text := lit "Invalid selector format. Must be 0x followed by 8 hex characters.";
          isError := true |},
     [EExec (forgePath w ++ lit " --version")]).
Proof.
  intros Hi Hv. unfold cast_4byte_from_file, checkFoundryInstalled.
  now rewrite Hi, Hv.
Qed.

Lemma cast_4byte_from_file_invalid_witness :
  valid_selector (lit "0xdeadbee") = false
  /\ effects (cast_4byte_from_file world_local (lit "0xdeadbee")
                (lit "sigs.txt") true)
     = [EExec (lit "forge --version")].
Proof.
  assert (Hv : valid_selector (lit "0xdeadbee") = false)
    by (vm_compute; reflexivity).
  split; [exact Hv|].
  rewrite (cast_4byte_from_file_invalid world_local (lit "0xdeadbee")
             (lit "sigs.txt") true); [reflexivity| |exact Hv].
  vm_compute. reflexivity.
Defined.

(** [cast_4byte_from_file] never rejects, and its answer is no error
    exactly when the toolchain is found, the selector is well formed, and
    the file exists, can be read and holds a line that is neither blank nor
    a comment. *)
Theorem cast_4byte_from_file_answers (w : World)
    (selector filePath : jsstring) (fuzzyMatch : bool) :
  exists r,
    outcome (cast_4byte_from_file w selector filePath fuzzyMatch) = Returned r
    /\ (isError r = false
        <-> foundry_installed w = true /\ valid_selector selector = true
            /\ fs_access w filePath = true
            /\ exists fileContent,
                 fs_readFile w filePath = inl fileContent
                 /\ file_signatures fileContent <> []).
Proof.
  unfold cast_4byte_from_file, checkFoundryInstalled, try_catch, access,
    readFile, executeCommand.
  destruct (foundry_installed w); cbn [bind negb];
    [|eexists; split; [reflexivity|]; cbn; split;
      [discriminate|intros (H & _); discriminate]].
  destruct (valid_selector selector); cbn [bind negb];
    [|eexists; split; [reflexivity|]; cbn; split;
      [discriminate|intros (_ & H & _); discriminate]].
  destruct (fs_access w filePath); cbn [bind negb];
    [|eexists; split; [reflexivity|]; cbn; split;
      [discriminate|intros (_ & _ & H & _); discriminate]].
  destruct (fs_readFile w filePath) as [content|e]; cbn [bind];
    [|eexists; split; [reflexivity|]; cbn; split;
      [discriminate|intros (_ & _ & _ & c & H & _); discriminate]].
  destruct (length (file_signatures content) =? 0) eqn:E.
  - apply Nat.eqb_eq, length_zero_iff_nil in E.
    eexists; split; [reflexivity|]. cbn. split; [discriminate|].
    intros (_ & _ & _ & c & H & N). injection H as <-. contradiction.
  - rewrite match_file_loop. eexists; split; [reflexivity|]. cbn.
    split; [|reflexivity]. intros _. repeat split. exists content.
    split; [reflexivity|]. intros N. rewrite N in E. discriminate.
Qed.

(** A signature file that exists but cannot be read: [cast_4byte_from_file]
    catches the error and answers with it, whereas
    [analyze_transaction_trace], which has no handler, rejects with it at
    the first selector. *)
Theorem unreadable_signature_file (w : World) (path error : jsstring) :
  path <> [] -> fs_access w path = true -> fs_readFile w path = inr error ->
  foundry_installed w = true ->
  (forall selector fuzzyMatch,
     valid_selector selector = true ->
     outcome (cast_4byte_from_file w selector path fuzzyMatch)
     = Returned {| text := lit "Error processing signatures: " ++ error;
                   isError := true |})
  /\ (forall txHash rpcUrl knownAddresses,
        let traceResult :=
          command_result w
            (trace_command w txHash (resolveRpcUrl_of w rpcUrl)
               knownAddresses) in
        success traceResult = true ->
        extract_selectors (message traceResult) <> [] ->
        outcome (analyze_transaction_trace w txHash rpcUrl (Some path)
                   knownAddresses)
        = Rejected error).
Proof.
  intros Hp Ha Hr Hi. split.
  - intros selector fuzzyMatch Hv.
    unfold cast_4byte_from_file, checkFoundryInstalled, try_catch, access,
      readFile, executeCommand.
    now rewrite Hi, Hv, Ha, Hr.
  - intros txHash rpcUrl knownAddresses traceResult Hs Hn.
    unfold analyze_transaction_trace, checkFoundryInstalled, resolveRpcUrl,
      executeCommand.
    rewrite Hi. cbn [bind negb]. fold traceResult. rewrite Hs. cbn [negb].
    destruct (extract_selectors (message traceResult)) as [|x r];
      [congruence|].
    cbn [length Nat.eqb for_of].
    unfold resolve_selector at 1, local_lookup, access, readFile,
      executeCommand.
    destruct path as [|c p]; [congruence|]. cbn [truthy].
    now rewrite Ha, Hr.
Qed.

Lemma unreadable_signature_file_witness :
  outcome (analyze_transaction_trace world_unreadable (lit "0xdead")
             (lit "http://localhost:8545") (Some (lit "sigs.txt")) [])
  = Rejected (lit "EISDIR: illegal operation on a directory").
Proof.
  refine (proj2 (unreadable_signature_file world_unreadable (lit "sigs.txt")
                   (lit "EISDIR: illegal operation on a directory")
                   _ _ _ _)
            (lit "0xdead") (lit "http://localhost:8545") [] _ _);
    try (vm_compute; reflexivity); discriminate.
Defined.

(** On a file that is read, the two entry points find the same local
    matches when fuzzy matching is off: the candidate lines whose selector
    is the target, in the order of the file. *)
Theorem local_resolvers_agree (w : World)
    (selector path fileContent : jsstring) :
  path <> [] -> fs_access w path = true ->
  fs_readFile w path = inl fileContent ->
  outcome (local_lookup w (Some path) selector)
  = Returned (filter (exact_match w selector) (candidate_lines fileContent))
  /\ (foundry_installed w = true -> valid_selector selector = true ->
      file_signatures fileContent <> [] ->
      outcome (cast_4byte_from_file w selector path false)
      = Returned
          {| text :=
               compile_results selector
                 (filter (exact_match w selector)
                    (candidate_lines fileContent))
                 (signatures_of
                    (command_result w
                       (castPath w ++ lit " 4byte " ++ selector)));
             isError := false |}).
Proof.
  intros Hp Ha Hr. split.
  - rewrite (local_lookup_read w selector path fileContent Hp Ha Hr).
    now rewrite exact_lines.
  - intros Hi Hv Hn.
    rewrite (cast_4byte_from_file_read w selector path fileContent false
               Hi Hv Ha Hr Hn).
    now rewrite exact_lines.
Qed.

Lemma local_resolvers_agree_witness :
  outcome (local_lookup world_local (Some (lit "sigs.txt")) (lit "0xa9059cbb"))
  = Returned [lit "transfer(address,uint256)"].
Proof.
  assert (Hp : lit "sigs.txt" <> []) by discriminate.
  assert (Ha : fs_access world_local (lit "sigs.txt") = true)
    by (vm_compute; reflexivity).
  assert (Hr : fs_readFile world_local (lit "sigs.txt") = inl sample_file)
    by (vm_compute; reflexivity).
  rewrite (proj1 (local_resolvers_agree world_local (lit "0xa9059cbb")
                    (lit "sigs.txt") sample_file Hp Ha Hr)).
  vm_compute. reflexivity.
Defined.

(* ===================================================================== *)
(** * cast_call: the lines of the output                                  *)
(* ===================================================================== *)

Lemma split_no_sep (sep : code_unit) (s : jsstring) :
  Forall (fun l => ~ In sep l) (split sep s).
Proof.
  induction s as [|c r IH]; cbn [split].
  - constructor; [tauto|constructor].
  - destruct (N.eqb_spec c sep) as [E|E].
    + constructor; [tauto|exact IH].
    + destruct (split sep r) as [|l ls].
      * constructor; [|constructor]. cbn. intuition congruence.
      * apply Forall_cons_iff in IH. destruct IH as [Hl Hls].
        constructor; [|exact Hls]. cbn. intuition congruence.
Qed.

Lemma split_absent (sep : code_unit) (s : jsstring) :
  ~ In sep s -> split sep s = [s].
Proof.
  induction s as [|c r IH]; intros H; [reflexivity|].
  cbn [split]. cbn in H.
  destruct (N.eqb_spec c sep) as [E|E]; [tauto|].
  rewrite IH by tauto. reflexivity.
Qed.

Lemma split_app_sep (sep : code_unit) (x rest : jsstring) :
  ~ In sep x -> split sep (x ++ sep :: rest) = x :: split sep rest.
Proof.
  induction x as [|c x IH]; intros H; cbn [app split].
  - now rewrite N.eqb_refl.
  - cbn in H. destruct (N.eqb_spec c sep) as [E|E]; [tauto|].
    rewrite IH by tauto. reflexivity.
Qed.

(** Lines that hold no separator are the lines of their concatenation. *)
Lemma split_join (sep : code_unit) : forall L,
  L <> [] -> Forall (fun l => ~ In sep l) L -> split sep (join [sep] L) = L.
Proof.
  induction L as [|x L IH]; intros Hn Hf; [congruence|].
  apply Forall_cons_iff in Hf. destruct Hf as [Hx Hf].
  destruct L as [|y L]; cbn [join].
  - now apply split_absent.
  - cbn [app]. rewrite split_app_sep by assumption.
    f_equal. apply IH; [discriminate|assumption].
Qed.

Lemma trimStart_In (c : code_unit) (s : jsstring) :
  In c (trimStart s) -> In c s.
Proof.
  induction s as [|a r IH]; cbn [trimStart]; [tauto|].
  destruct (is_space a); [intros H; right; now apply IH|tauto].
Qed.

Lemma trim_In (c : code_unit) (s : jsstring) : In c (trim s) -> In c s.
Proof.
  unfold trim, trimEnd. intros H.
  apply in_rev, trimStart_In in H. rewrite <- in_rev in H.
  now apply trimStart_In.
Qed.

Lemma filter_idempotent {A} (f : A -> bool) (l : list A) :
  filter f (filter f l) = filter f l.
Proof.
  induction l as [|x l IH]; cbn; [reflexivity|].
  destruct (f x) eqn:E; cbn; [rewrite E; f_equal|]; exact IH.
Qed.

Lemma formatted_lines (output : jsstring) :
  Forall (fun l => l <> [] /\ trim l = l /\ ~ In 10%N l)
    (filter (fun line => 0 <? length line) (map trim (split 10%N output))).
Proof.
  rewrite Forall_forall. intros l Hl. apply filter_In in Hl.
  destruct Hl as [Hl Hlen]. apply in_map_iff in Hl.
  destruct Hl as (x & <- & Hx). split; [|split].
  - intros E. rewrite E in Hlen. discriminate.
  - apply trim_idempotent.
  - intros Hin. apply trim_In in Hin.
    pose proof (split_no_sep 10%N output) as Hs.
    rewrite Forall_forall in Hs. now apply (Hs x).
Qed.

Lemma formatOutput_twice (output : jsstring) :
  formatOutput (formatOutput output) = formatOutput output.
Proof.
  pose proof (formatted_lines output) as HL.
  set (L := filter (fun line => 0 <? length line)
              (map trim (split 10%N output))) in HL.
  unfold formatOutput at 2 3.
  destruct (includes 10%N output && negb (infixb (lit "Error") output))
    eqn:C; [|unfold formatOutput; now rewrite C].
  fold L. unfold formatOutput.
  destruct (includes 10%N (join nl L) && _); [|reflexivity].
  f_equal. destruct L as [|x L'] eqn:E; [reflexivity|]. rewrite <- E in *.
  unfold nl. rewrite split_join.
  - assert (Hm : map trim L = L).
    { clear E. induction L as [|y L0 IH]; [reflexivity|].
      apply Forall_cons_iff in HL. destruct HL as [(_ & Hy & _) HL].
      cbn [map]. now rewrite Hy, IH. }
    rewrite Hm. apply filter_idempotent.
  - rewrite E. discriminate.
  - eapply Forall_impl; [|exact HL]. cbn. tauto.
Qed.

(** The formatting of the output of a call: formatting what has been
    formatted changes nothing; and when the formatting applies, the output
    becomes its lines, trimmed, without the empty ones. *)
Theorem formatOutput_idempotent (output : jsstring) :
  formatOutput (formatOutput output) = formatOutput output
  /\ (includes 10%N output = true ->
      infixb (lit "Error") output = false ->
      exists L,
        formatOutput output = join nl L
        /\ Forall (fun l => l <> [] /\ trim l = l /\ ~ In 10%N l) L).
Proof.
  split; [apply formatOutput_twice|].
  intros Hi He. eexists. split; [|apply (formatted_lines output)].
  unfold formatOutput. rewrite Hi, He. reflexivity.
Qed.

(** The name that [cast_call] shows for the function is the signature up
    to its first opening parenthesis. *)
Theorem functionName_prefix (functionSignature : jsstring) :
  ~ In 40%N (functionName functionSignature)
  /\ (functionName functionSignature = functionSignature
      \/ exists rest,
           functionSignature
           = functionName functionSignature ++ 40%N :: rest).
Proof.
  unfold functionName.
  induction functionSignature as [|c r IH]; cbn [split hd].
  - split; [tauto|now left].
  - destruct (N.eqb_spec c 40) as [->|E]; cbn [hd].
    + split; [tauto|]. right. now exists r.
    + destruct (split 40%N r) as [|l ls] eqn:S;
        [now apply split_nonempty in S|].
      cbn [hd] in *. destruct IH as [Hn Hr]. split.
      * cbn. intuition congruence.
      * destruct Hr as [->|[rest ->]]; [now left|].
        right. now exists rest.
Qed.

(** [cast_call] never rejects.  When its answer is no error, the toolchain
    was found, and the answer is the header, which names the contract and
    the function, followed by an output that the formatting leaves as it
    is. *)
Theorem cast_call_answers (cfg : RpcConfig) (w : World)
    (contractAddress functionSignature : jsstring) (args : list jsstring)
    (rpcUrl blockNumber from : option jsstring) :
  exists r,
    outcome (cast_call cfg w contractAddress functionSignature args rpcUrl
               blockNumber from) = Returned r
    /\ (isError r = false ->
        foundry_installed w = true
        /\ exists output,
             text r = lit "Call to " ++ contractAddress ++ lit "."
                      ++ functionName functionSignature ++ lit " result:"
                      ++ nl ++ output
             /\ formatOutput output = output).
Proof.
  unfold cast_call, checkFoundryInstalled, executeCommand.
  destruct (foundry_installed w); cbn [bind negb];
    [|eexists; split; [reflexivity|discriminate]].
  destruct (resolveRpcUrl_src_returns cfg w rpcUrl) as [resolved Hr].
  destruct (resolveRpcUrl_src cfg w rpcUrl) as [o resolving].
  cbn [outcome fst] in Hr. subst o. cbn [bind ret].
  eexists. split; [reflexivity|]. cbn [isError text].
  intros Hs. apply negb_false_iff in Hs. rewrite Hs.
  split; [reflexivity|]. eexists. split; [reflexivity|].
  apply formatOutput_twice.
Qed.

(* ===================================================================== *)
(** * analyze_transaction_trace: the error that escapes                   *)
(* ===================================================================== *)

Lemma for_of_rejects_iff {A S} (body : S -> A -> Async S)
    (P : jsstring -> Prop) :
  (forall s x e, outcome (body s x) = Rejected e <-> P e) ->
  forall xs s e,
    outcome (for_of xs body s) = Rejected e <-> xs <> [] /\ P e.
Proof.
  intros H. induction xs as [|x xs IH]; intros s e; cbn [for_of].
  - cbn. split; [discriminate|intros [N _]; congruence].
  - rewrite outcome_bind.
    destruct (outcome (body s x)) as [s1|e1] eqn:E.
    + rewrite IH. split.
      * intros [_ Hp]. split; [discriminate|exact Hp].
      * intros [_ Hp]. apply (H s x) in Hp. congruence.
    + split.
      * intros Q. injection Q as <-. split; [discriminate|].
        now apply (H s x).
      * intros [_ Hp]. apply (H s x) in Hp. congruence.
Qed.

Lemma outcome_after {A} (m : Async A) (l : list Effect) :
  outcome (let (r, l') := m in (r, l ++ l')) = outcome m.
Proof. now destruct m. Qed.

Lemma resolve_selector_rejects (w : World) (signatureFile : option jsstring)
    (m : list (jsstring * Entry)) (selector error : jsstring) :
  outcome (resolve_selector w signatureFile m selector) = Rejected error
  <-> exists path,
        signatureFile = Some path /\ path <> []
        /\ fs_access w path = true /\ fs_readFile w path = inr error.
Proof.
  unfold resolve_selector, executeCommand. cbn [bind].
  destruct signatureFile as [path|]; cbn [local_lookup].
  - destruct path as [|c p]; cbn [truthy].
    + cbn. split; [discriminate|]. intros (q & Q & N & _).
      injection Q as <-. congruence.
    + unfold access, readFile. cbn [bind].
      destruct (fs_access w (c :: p)) eqn:Ha.
      * destruct (fs_readFile w (c :: p)) as [content|e] eqn:Hr.
        -- cbn [bind]. rewrite match_trace_loop. cbn.
           split; [discriminate|]. intros (q & Q & _ & _ & R).
           injection Q as <-. congruence.
        -- cbn. split.
           ++ intros Q. injection Q as <-. exists (c :: p).
              repeat split; [discriminate|exact Ha|exact Hr].
           ++ intros (q & Q & _ & _ & R). injection Q as <-. congruence.
      * cbn. split; [discriminate|]. intros (q & Q & _ & A & _).
        injection Q as <-. congruence.
  - cbn. split; [discriminate|]. intros (q & Q & _). discriminate.
Qed.

(** [analyze_transaction_trace] rejects in one case only: the toolchain is
    found, the trace command succeeds, the trace holds a selector, and the
    signature file that was given exists but cannot be read; the error is
    the one of the read. *)
Theorem analyze_rejects_iff (w : World) (txHash rpcUrl : jsstring)
    (signatureFile : option jsstring) (knownAddresses : list jsstring)
    (error : jsstring) :
  let traceResult :=
    command_result w
      (trace_command w txHash (resolveRpcUrl_of w rpcUrl) knownAddresses) in
  outcome (analyze_transaction_trace w txHash rpcUrl signatureFile
             knownAddresses) = Rejected error
  <-> foundry_installed w = true
      /\ success traceResult = true
      /\ extract_selectors (message traceResult) <> []
      /\ exists path,
           signatureFile = Some path /\ path <> []
           /\ fs_access w path = true /\ fs_readFile w path = inr error.
Proof.
  intros traceResult.
  unfold analyze_transaction_trace, checkFoundryInstalled, resolveRpcUrl,
    executeCommand.
  destruct (foundry_installed w); cbn [bind negb];
    [|cbn; split; [discriminate|intros (Q & _); discriminate]].
  fold traceResult.
  destruct (success traceResult); cbn [negb];
    [|cbn; split; [discriminate|intros (_ & Q & _); discriminate]].
  destruct (extract_selectors (message traceResult)) as [|x r] eqn:E.
  - cbn. split; [discriminate|]. intros (_ & _ & N & _). congruence.
  - rewrite !outcome_after. cbn [length Nat.eqb]. rewrite outcome_bind.
    pose proof (for_of_rejects_iff (resolve_selector w signatureFile) _
                  (fun s y e => resolve_selector_rejects w signatureFile s y e)
                  (x :: r) [] error) as H.
    destruct (outcome (for_of (x :: r) (resolve_selector w signatureFile) []))
      as [m|e].
    + cbn. split; [discriminate|]. intros (_ & _ & _ & Hp).
      assert (Q : Returned m = Rejected error)
        by (apply H; split; [discriminate|exact Hp]).
      discriminate.
    + split.
      * intros Q. injection Q as ->. destruct H as [H _].
        specialize (H eq_refl). tauto.
      * intros (_ & _ & _ & Hp). destruct H as [_ H].
        assert (Q : x :: r <> []) by discriminate.
        specialize (H (conj Q Hp)). now injection H as ->.
Qed.

(* ===================================================================== *)
(** * analyze_transaction_trace: the report                               *)
(* ===================================================================== *)

Lemma map_get_NoDup {V} (m : list (jsstring * V)) (k : jsstring) (v : V) :
  NoDup (map fst m) -> In (k, v) m -> map_get k m = Some v.
Proof.
  induction m as [|[k' v'] m IH]; cbn [map fst map_get In]; [tauto|].
  intros Hn Hi. apply NoDup_cons_iff in Hn. destruct Hn as [Hk Hn].
  destruct Hi as [E|Hi].
  - injection E as -> ->. now rewrite str_eqb_refl.
  - destruct (str_eqb k' k) eqn:E.
    + apply str_eqb_eq in E. subst k'. exfalso. apply Hk.
      apply in_map_iff. now exists (k, v).
    + now apply IH.
Qed.

(** The loop of lines 827-854 over keys that the table resolves writes one
    block for each of them. *)
Lemma report_blocks (m : list (jsstring * Entry)) :
  forall l output,
    (forall kv, In kv l -> map_get (fst kv) m = Some (snd kv)) ->
    fold_left (report_block m) (map fst l) output
    = output ++ concat (map report_entry l).
Proof.
  induction l as [|kv l IH]; intros output H; cbn [map fold_left concat].
  - now rewrite app_nil_r.
  - rewrite IH by (intros x Hx; apply H; now right).
    unfold report_block. cbv zeta. rewrite (H kv) by now left.
    unfold report_entry. now rewrite <- !app_assoc.
Qed.

(** When the loop of lines 791-821 returns, the table has the extracted
    selectors as its keys, in their order, and the entry of a selector
    holds the candidates of its remote lookup and of its local lookup. *)
Lemma lookup_table (w : World) (signatureFile : option jsstring)
    (selectors : list jsstring) (selectorMap : list (jsstring * Entry)) :
  NoDup selectors ->
  outcome (for_of selectors (resolve_selector w signatureFile) [])
  = Returned selectorMap ->
  map fst selectorMap = selectors
  /\ Forall (fun kv =>
               online (snd kv)
               = signatures_of
                   (command_result w (castPath w ++ lit " 4byte " ++ fst kv))
               /\ outcome (local_lookup w signatureFile (fst kv))
                  = Returned (local (snd kv)))
       selectorMap.
Proof.
  intros Hn H.
  pose (P := fun kv : jsstring * Entry =>
               online (snd kv)
               = signatures_of
                   (command_result w (castPath w ++ lit " 4byte " ++ fst kv))
               /\ outcome (local_lookup w signatureFile (fst kv))
                  = Returned (local (snd kv))).
  pose (I := fun (done : list jsstring) (m : list (jsstring * Entry)) =>
               (NoDup done -> map fst m = done) /\ Forall P m).
  assert (Hi : I ([] ++ selectors) selectorMap).
  { apply (for_of_invariant (resolve_selector w signatureFile) I)
      with (s := []); [|split; [reflexivity|constructor]|exact H].
    intros done m x m' [Hk Hf] Hb.
    apply resolve_selector_returned in Hb. destruct Hb as (L & HL & ->).
    split.
    - intros Hd. apply NoDup_remove in Hd. rewrite app_nil_r in Hd.
      destruct Hd as [Hd Hx]. specialize (Hk Hd).
      rewrite map_set_new by now rewrite Hk.
      now rewrite map_app, Hk.
    - apply map_set_Forall; [|exact Hf]. split; [reflexivity|exact HL]. }
  destruct Hi as [Hk Hf]. split; [now apply Hk|exact Hf].
Qed.

(** C4: the answer of [analyze_transaction_trace], when the lookups
    return, is the report that holds one block for each entry of their
    table, which has the extracted selectors as its keys, in their order,
    each with the candidates of its remote and of its local lookup.  The
    block of an entry lists every local candidate; of [n] online candidates
    it lists all when [n] is at most 5, with nothing behind them, and the
    first 5 followed by the line [... and N more] with [N = n - 5] when [n]
    exceeds 5. *)
Theorem C4_report_listing :
  (forall e : Entry,
     let n := length (online e) in
     let header := lit "  Online matches (" ++ of_nat n ++ lit "):" ++ nl in
     (n = 0 -> online_section (Some e) = [])
     /\ (0 < n <= 5 -> online_section (Some e) = header ++ listing (online e))
     /\ (5 < n ->
         online_section (Some e)
         = header ++ listing (firstn 5 (online e))
           ++ lit "    - ... and " ++ of_nat (n - 5) ++ lit " more" ++ nl)
     /\ local_section (Some e)
        = (if length (local e) =? 0 then []
           else lit "  Local matches (" ++ of_nat (length (local e)) ++ lit "):"
                ++ nl ++ listing (local e))
     /\ forall selectorMap output selector,
          map_get selector selectorMap = Some e ->
          report_block selectorMap output selector
          = output ++ lit "Selector: " ++ selector ++ nl
            ++ local_section (Some e) ++ online_section (Some e)
            ++ no_matches_section (Some e) ++ nl)
  /\ forall (w : World) (txHash rpcUrl : jsstring)
       (signatureFile : option jsstring) (knownAddresses : list jsstring)
       (selectorMap : list (jsstring * Entry)),
       let traceResult :=
         command_result w
           (trace_command w txHash (resolveRpcUrl_of w rpcUrl)
              knownAddresses) in
       let selectors := extract_selectors (message traceResult) in
       foundry_installed w = true ->
       success traceResult = true ->
       selectors <> [] ->
       outcome (for_of selectors (resolve_selector w signatureFile) [])
       = Returned selectorMap ->
       outcome (analyze_transaction_trace w txHash rpcUrl signatureFile
                  knownAddresses)
       = Returned
           {| text :=
                lit "Analysis of transaction " ++ txHash ++ lit ":"
                ++ nl ++ nl
                ++ lit "Found " ++ of_nat (length selectors)
                ++ lit " unique function selectors in the trace."
                ++ nl ++ nl
                ++ concat (map report_entry selectorMap)
                ++ lit "Simplified trace with function names:"
                ++ nl ++ nl
                ++ fold_left annotate_best selectorMap (message traceResult);
              isError := false |}
       /\ map fst selectorMap = selectors
       /\ Forall (fun kv =>
                    online (snd kv)
                    = signatures_of
                        (command_result w
                           (castPath w ++ lit " 4byte " ++ fst kv))
                    /\ outcome (local_lookup w signatureFile (fst kv))
                       = Returned (local (snd kv)))
            selectorMap.
Proof.
  split.
  - intros e n header. unfold online_section, local_section, slice0. fold n.
    repeat split.
    + intros ->. reflexivity.
    + intros [H0 H5]. apply Nat.ltb_lt in H0. rewrite H0.
      assert (H : (5 <? n) = false) by (apply Nat.ltb_ge; lia). rewrite H.
      rewrite fold_items, firstn_all2 by (fold n; lia).
      unfold header. now rewrite <- !app_assoc.
    + intros H5.
      assert (H0 : (0 <? n) = true) by (apply Nat.ltb_lt; lia). rewrite H0.
      apply Nat.ltb_lt in H5. rewrite H5, fold_items.
      unfold header. now rewrite <- !app_assoc.
    + destruct (length (local e)) eqn:E; [reflexivity|].
      cbn [Nat.ltb Nat.leb Nat.eqb]. rewrite fold_items.
      now rewrite <- !app_assoc.
    + intros selectorMap output selector H. unfold report_block.
      now rewrite H.
  - intros w txHash rpcUrl signatureFile knownAddresses selectorMap
      traceResult selectors Hi Hs Hn Hm.
    assert (Hd : NoDup selectors).
    { unfold selectors, extract_selectors.
      rewrite Set_of_first_appearances. apply first_appearances_NoDup. }
    destruct (lookup_table w signatureFile selectors selectorMap Hd Hm)
      as [Hk Hf].
    split; [|split; [exact Hk|exact Hf]].
    unfold analyze_transaction_trace, checkFoundryInstalled, resolveRpcUrl,
      executeCommand.
    rewrite Hi. cbn [bind negb]. rewrite !outcome_after.
    fold traceResult. rewrite Hs. cbn [negb]. fold selectors.
    destruct (length selectors =? 0) eqn:E.
    { apply Nat.eqb_eq, length_zero_iff_nil in E. contradiction. }
    rewrite outcome_bind, Hm. cbn [ret outcome fst]. f_equal. f_equal.
    assert (Hb : forall output,
                   fold_left (report_block selectorMap) selectors output
                   = output ++ concat (map report_entry selectorMap)).
    { intros output. rewrite <- Hk. apply report_blocks.
      intros [k v] Hin. cbn [fst snd]. apply map_get_NoDup; [|exact Hin].
      now rewrite Hk. }
    unfold build_report. rewrite Hb. now rewrite <- !app_assoc.
Qed.

Lemma C4_witness :
  outcome (analyze_transaction_trace world_seven (lit "0xdead")
             (lit "http://localhost:8545") None [])
  = Returned
      {| text :=
           lit "Analysis of transaction 0xdead:" ++ nl ++ nl
           ++ lit "Found 1 unique function selectors in the trace."
           ++ nl ++ nl
           ++ lit "Selector: 0xa9059cbb" ++ nl
           ++ lit "  Online matches (7):" ++ nl
           ++ listing [lit "a()"; lit "b()"; lit "c()"; lit "d()"; lit "e()"]
           ++ lit "    - ... and 2 more" ++ nl
           ++ nl
           ++ lit "Simplified trace with function names:" ++ nl ++ nl
           ++ lit "CALL 0xa9059cbb [a()]";
         isError := false |}.
Proof.
  pose (m := [(lit "0xa9059cbb",
               {| online := [lit "a()"; lit "b()"; lit "c()"; lit "d()";
                             lit "e()"; lit "f()"; lit "g()"];
                  local := [] |})]).
  assert (H1 : foundry_installed world_seven = true)
    by (vm_compute; reflexivity).
  assert (H2 : success
                 (command_result world_seven
                    (trace_command world_seven (lit "0xdead")
                       (resolveRpcUrl_of world_seven
                          (lit "http://localhost:8545")) [])) = true)
    by (vm_compute; reflexivity).
  assert (H3 : extract_selectors
                 (message
                    (command_result world_seven
                       (trace_command world_seven (lit "0xdead")
                          (resolveRpcUrl_of world_seven
                             (lit "http://localhost:8545")) []))) <> [])
    by (vm_compute; discriminate).
  assert (H4 : outcome
                 (for_of
                    (extract_selectors
                       (message
                          (command_result world_seven
                             (trace_command world_seven (lit "0xdead")
                                (resolveRpcUrl_of world_seven
                                   (lit "http://localhost:8545")) []))))
                    (resolve_selector world_seven None) [])
               = Returned m)
    by (vm_compute; reflexivity).
  etransitivity;
    [exact (proj1 (proj2 C4_report_listing world_seven (lit "0xdead")
                     (lit "http://localhost:8545") None [] m H1 H2 H3 H4))|].
  vm_compute. reflexivity.
Defined.
